(** * EC2 spot pricing scripts: a shallow embedding

    The repository holds two scripts, [cpu-spot-pricing.py] and
    [gpu-spot-pricing.py].  Both fan one paginated query per region out
    into an anyio task group, merge the decoded [Pricing] records through
    an unbuffered memory object stream, and print the records whose spot
    price does not exceed a ceiling.

    Python floats are IEEE binary64 and are modelled by primitive floats;
    exceptions are modelled by an error monad; the raw records of a page
    (Python dicts) are finite maps from field names to strings. *)

From Stdlib Require Import ZArith Floats Uint63 Ascii String Permutation.
From stdpp Require Import gmap strings list.

#[local] Set Warnings "-inexact-float".
#[local] Open Scope string_scope.
#[local] Open Scope list_scope.

(** ** Exceptions *)

Module Py.

(** The exceptions the scripts can raise.  [FetchError] stands for
    whatever the remote client or its paginator raises (transport,
    authorisation).  The errors anyio itself raises in a task once a run
    is over are not among them: see the pipeline below. *)
Inductive exn : Type :=
  | KeyError (key : string)
  | ValueError (arg : string)
  | IndexError
  | FetchError.

Inductive result (A : Type) : Type :=
  | Ok (a : A)
  | Raise (e : exn).
Arguments Ok {A} a.
Arguments Raise {A} e.

Definition bind {A B} (r : result A) (k : A → result B) : result B :=
  match r with
  | Ok a => k a
  | Raise e => Raise e
  end.

Definition is_ok {A} (r : result A) : bool :=
  match r with Ok _ => true | Raise _ => false end.

End Py.
Import Py.

#[global] Instance result_bind : MBind result := λ A B k r, Py.bind r k.

(** ** Strings *)

(** [s.split(sep)] for a one-character separator: never empty. *)
Fixpoint split (sep : ascii) (s : string) : list string :=
  match s with
  | EmptyString => [EmptyString]
  | String c s' =>
      if Ascii.eqb c sep then EmptyString :: split sep s'
      else match split sep s' with
           | [] => [String c EmptyString]
           | w :: ws => String c w :: ws
           end
  end.

(** [l[i]], raising [IndexError] out of range (indices here are not
    negative). *)
Definition getitem {A} (l : list A) (i : nat) : result A :=
  match l !! i with
  | Some x => Ok x
  | None => Raise IndexError
  end.

(** [s in l] for a list of string literals, as the alternatives of a
    [case "a" | "b"] pattern. *)
Definition one_of (s : string) (l : list string) : bool :=
  existsb (String.eqb s) l.

(** ** [float(str)] *)

Module PyFloat.

Definition is_digit (c : ascii) : bool :=
  let n := nat_of_ascii c in Nat.leb 48 n && Nat.leb n 57.

Definition digit_val (c : ascii) : Z := Z.of_nat (nat_of_ascii c) - 48.

(** The white space that [float] strips from both ends of an ASCII
    string: the space and the characters 9 to 13.  (The separators 28 to
    31, white space for [str.isspace], are not stripped.) *)
Definition is_space (c : ascii) : bool :=
  let n := nat_of_ascii c in
  Nat.eqb n 32 || (Nat.leb 9 n && Nat.leb n 13).

(** The strings on which [float] is modelled: ASCII text.  On other text
    [float] goes through the Unicode tables of digits and white space,
    which are not part of this development. *)
Definition ascii_char (c : ascii) : bool := Nat.ltb (nat_of_ascii c) 128.

Definition is_ascii (s : string) : bool :=
  forallb ascii_char (list_ascii_of_string s).

Definition lower (c : ascii) : ascii :=
  let n := nat_of_ascii c in
  if Nat.leb 65 n && Nat.leb n 90 then ascii_of_nat (n + 32) else c.

(** Underscores are allowed between two digits only; they are removed
    before the number is read. *)
Fixpoint strip_underscores (prev : ascii) (s : list ascii) : option (list ascii) :=
  match s with
  | [] => if Ascii.eqb prev "_" then None else Some []
  | c :: s' =>
      if Ascii.eqb c "_" then
        if is_digit prev then strip_underscores c s' else None
      else if Ascii.eqb prev "_" && negb (is_digit c) then None
      else cons c <$> strip_underscores c s'
  end.

Fixpoint lstrip (s : list ascii) : list ascii :=
  match s with
  | c :: s' => if is_space c then lstrip s' else s
  | [] => []
  end.

Definition strip (s : list ascii) : list ascii :=
  rev (lstrip (rev (lstrip s))).

Fixpoint span_digits (s : list ascii) : list ascii * list ascii :=
  match s with
  | c :: s' =>
      if is_digit c then let '(ds, r) := span_digits s' in (c :: ds, r)
      else ([], s)
  | [] => ([], [])
  end.

Definition digits_to_Z (ds : list ascii) : Z :=
  fold_left (λ acc c, 10 * acc + digit_val c)%Z ds 0%Z.

(** An optional sign; [true] is minus. *)
Definition take_sign (s : list ascii) : bool * list ascii :=
  match s with
  | "-"%char :: r => (true, r)
  | "+"%char :: r => (false, r)
  | _ => (false, s)
  end.

(** The exponent part: nothing, or [e] or [E], an optional sign and at
    least one digit, up to the end of the text. *)
Definition parse_exponent (s : list ascii) : option Z :=
  match s with
  | [] => Some 0%Z
  | c :: r =>
      if Ascii.eqb (lower c) "e" then
        let '(neg, r') := take_sign r in
        match span_digits r' with
        | ((_ :: _) as ds, []) =>
            Some (if neg then - digits_to_Z ds else digits_to_Z ds)%Z
        | _ => None
        end
      else None
  end.

(** An unsigned decimal literal [digits [. digits] [exponent]] with at
    least one digit in the mantissa, read as [m * 10 ^ e]. *)
Definition parse_decimal (s : list ascii) : option (Z * Z) :=
  let '(ip, r1) := span_digits s in
  let '(fp, r2) :=
    match r1 with
    | "."%char :: r => span_digits r
    | _ => ([], r1)
    end in
  match ip ++ fp with
  | [] => None
  | ds =>
      ex ← parse_exponent r2;
      Some (digits_to_Z ds, (ex - Z.of_nat (length fp))%Z)
  end.

(** The binary64 value nearest to [m * 10 ^ e] (ties to even), for
    [0 <= m]. *)
Definition round_decimal (neg : bool) (m e : Z) : float :=
  if (m =? 0)%Z then (if neg then PrimFloat.neg_zero else PrimFloat.zero)
  else if (0 <=? e)%Z then
    SF2Prim (binary_normalize prec emax
               (if neg then - (m * 10 ^ e) else m * 10 ^ e)%Z 0%Z false)
  else
    let d := (10 ^ (- e))%Z in
    let k := Z.max 0 (Z.log2 d - Z.log2 m + 56)%Z in
    let n := (m * 2 ^ k)%Z in
    let q := (n / d)%Z in
    let r := (n mod d)%Z in
    let loc := if (r =? 0)%Z then loc_Exact else loc_Inexact (2 * r ?= d)%Z in
    SF2Prim (binary_round_aux prec emax neg q (- k)%Z loc).

Definition parse_inf_nan (neg : bool) (s : list ascii) : option float :=
  let w := string_of_list_ascii (map lower s) in
  if one_of w ["inf"; "infinity"] then
    Some (if neg then neg_infinity else infinity)
  else if String.eqb w "nan" then Some nan
  else None.

(** [float(s)] for an ASCII string [s]; [None] is [ValueError].  A
    result [Some f] is what [float] returns for every [s], since only
    ASCII text is accepted here. *)
Definition float_of_string (s : string) : option float :=
  t ← strip_underscores "000"%char (list_ascii_of_string s);
  let '(neg, body) := take_sign (strip t) in
  match parse_inf_nan neg body with
  | Some f => Some f
  | None => '(m, e) ← parse_decimal body; Some (round_decimal neg m e)
  end.

End PyFloat.

(** The [converter=float] of the [spot_price] field. *)
Definition float (s : string) : result PrimFloat.float :=
  match PyFloat.float_of_string s with
  | Some f => Ok f
  | None => Raise (ValueError s)
  end.

(** [int * float]: the integer is converted first. *)
Definition float_of_int (n : Z) : PrimFloat.float :=
  PrimFloat.of_uint63 (Uint63.of_Z n).

(** ** The [Pricing] record (the same class in both scripts) *)

(** A raw record of a page: a dict from field names to strings. *)
Abbreviation raw := (gmap string string).

Record Pricing : Type := {
  instance_type : string;
  zone_id : string;
  spot_price : PrimFloat.float
}.

(** [data[key]] *)
Definition dict_get (data : raw) (key : string) : result string :=
  match data !! key with
  | Some v => Ok v
  | None => Raise (KeyError key)
  end.

(** [Pricing.from_dict]: the three subscripts are evaluated left to
    right, then the constructor runs the [float] converter. *)
Definition from_dict (data : raw) : result Pricing :=
  it ← dict_get data "InstanceType";
  zone ← dict_get data "AvailabilityZoneId";
  price ← dict_get data "SpotPrice";
  f ← float price;
  Ok {| instance_type := it; zone_id := zone; spot_price := f |}.

(** A raw record that has the three fields. *)
Definition SpotPriceTypeDef (InstanceType AvailabilityZoneId SpotPrice : string) : raw :=
  {[ "InstanceType" := InstanceType;
     "AvailabilityZoneId" := AvailabilityZoneId;
     "SpotPrice" := SpotPrice ]}.

(** The fields [from_dict] reads, in the order it reads them, and the
    first of them that [data] lacks. *)
Definition required_fields : list string :=
  ["InstanceType"; "AvailabilityZoneId"; "SpotPrice"].

Definition first_missing (data : raw) : option string :=
  List.find (λ key, match data !! key with None => true | Some _ => false end)
    required_fields.

(** ** [cpu-spot-pricing.py] *)

Module Cpu.

Definition MAX_PRICE : PrimFloat.float := 1.2%float.

(** The body of the [async for] loop of [main]: [true] when the record
    is printed. *)
Definition body (pricing : Pricing) : result bool :=
  Ok (spot_price pricing <=? MAX_PRICE)%float.

End Cpu.

(** ** [gpu-spot-pricing.py] *)

Module Gpu.

Definition G6E_G5_PERF_RATIO : PrimFloat.float := 2.35%float.
Definition MAX_PRICE_PER_GPU_HOUR : PrimFloat.float := 0.49%float.

(** A [StrEnum] with [auto()] values: the lower-cased member names. *)
Inductive InstanceFamily : Type := G5 | G6E.

(** [InstanceFamily(value)]: look a member up by value. *)
Definition InstanceFamily_of_value (v : string) : result InstanceFamily :=
  if String.eqb v "g5" then Ok G5
  else if String.eqb v "g6e" then Ok G6E
  else Raise (ValueError v).

(** The members in the order of their definition, and [str(member)],
    which for a [StrEnum] is the value. *)
Definition InstanceFamily_members : list InstanceFamily := [G5; G6E].

Definition InstanceFamily_value (family : InstanceFamily) : string :=
  match family with
  | G5 => "g5"
  | G6E => "g6e"
  end.

(** The [Values] of the instance-type filter that [query_region] passes
    to the paginator: [f"{family}.*"] for every member. *)
Definition filter_values : list string :=
  (λ family, String.append (InstanceFamily_value family) ".*")
    <$> InstanceFamily_members.

Definition instance_family (self : Pricing) : result InstanceFamily :=
  v ← getitem (split "." (instance_type self)) 0;
  InstanceFamily_of_value v.

Definition instance_size (self : Pricing) : result string :=
  getitem (split "." (instance_type self)) 1.

Definition gpu_count (self : Pricing) : result Z :=
  size ← instance_size self;
  if one_of size ["xlarge"; "2xlarge"; "4xlarge"; "8xlarge"; "16xlarge"] then Ok 1%Z
  else if one_of size ["12xlarge"; "24xlarge"] then Ok 4%Z
  else if one_of size ["48xlarge"] then Ok 8%Z
  else Raise (ValueError (instance_type self)).

(** Lines 93 to 98 of [main]: [gpu_count] is read before
    [instance_family]. *)
Definition max_price (pricing : Pricing) : result PrimFloat.float :=
  n ← gpu_count pricing;
  let max_price := (float_of_int n * MAX_PRICE_PER_GPU_HOUR)%float in
  family ← instance_family pricing;
  Ok match family with
     | G5 => (max_price / G6E_G5_PERF_RATIO)%float
     | G6E => max_price
     end.

(** The body of the [async for] loop of [main]. *)
Definition body (pricing : Pricing) : result bool :=
  ceiling ← max_price pricing;
  Ok (spot_price pricing <=? ceiling)%float.

End Gpu.

(** ** The pipeline (the same [query_region] and [main] in both scripts)

    What the remote service does for a region is an input, a list of
    fetches: [Page l] is a page with the raw records [l]; [Fault] is the
    paginator raising; [Refused], at the head of a feed, is
    [create_client] raising, before the task has entered its send stream
    (further down a feed it is read as [Fault]).

    One entry of a schedule lets one fetch task or the consumer run up
    to its next suspension point.  The stream is unbuffered, so a [send]
    completes by handing the record to the consumer, whose loop body has
    no suspension point and runs with it.

    [query_region] is one [async with] of two context managers, the
    client and the send stream.  However its block is left, the send
    stream is left first, which closes the task's clone, then the client,
    and only then does the task end.  An exception raised in the block
    (by the paginator or by [from_dict]) therefore does not end the run
    at once: while the task is unwinding, the other tasks and the
    consumer go on.  When the task has ended with its exception the task
    group is cancelled: nothing is handed to the consumer any more and
    [anyio.run] raises.  (The end of the task and the cancellation are
    one step: the task does nothing in between.)  An exception raised by
    the loop body leaves the loop and the receive stream at once.

    [anyio.run] raises an exception group.  The run records the exception
    that ended it; the group can hold others as well (the error of
    another task that fails before the cancellation reaches it, anyio's
    BrokenResourceError for a task found waiting in [send] when the loop
    body's exception closes the receive stream), which are not listed. *)

Inductive fetch : Type :=
  | Page (SpotPriceHistory : list raw)
  | Fault
  | Refused.

(** Where a [query_region] task stands: about to enter its [async with];
    asking the paginator for a page; in the loop over the records of a
    page; out of the send stream and leaving the client, normally or with
    the exception [e] under way ([clone_open] when the send stream was
    never entered); ended. *)
Inductive task : Type :=
  | Opening (feed : list fetch)
  | Paging (rest : list fetch)
  | Sending (cur : list raw) (rest : list fetch)
  | Leaving
  | Failing (e : exn) (rest : list fetch) (clone_open : bool)
  | Done.

(** [Running]: the loop of [main] is going.  [Closed]: the loop has seen
    the end of the stream and [main] returns.  [Aborted e]: the run ends
    with the exception [e]. *)
Inductive status : Type :=
  | Running
  | Closed
  | Aborted (e : exn).

Record state : Type := {
  tasks : list task;
  open_send_channels : nat;
  received : list Pricing;
  printed : list Pricing;
  run_status : status
}.

Inductive pick : Type :=
  | Task (i : nat)
  | Consumer.

(** Whether a task holds an open clone of the send stream. *)
Definition holds_clone (t : task) : bool :=
  match t with
  | Opening _ | Paging _ | Sending _ _ => true
  | Failing _ _ clone_open => clone_open
  | Leaving | Done => false
  end.

(** The exception a task is unwinding with. *)
Definition failure (t : task) : option exn :=
  match t with
  | Failing e _ _ => Some e
  | _ => None
  end.

(** The lazy sequence a region contributes: the records of its pages
    through [map(Pricing.from_dict, ...)], or the error of the
    paginator or of the client. *)
Fixpoint trace (feed : list fetch) : list (result Pricing) :=
  match feed with
  | [] => []
  | Page l :: rest => (from_dict <$> l) ++ trace rest
  | Fault :: rest | Refused :: rest => Raise FetchError :: trace rest
  end.

(** The part of its feed a task has not got through; for a task that is
    unwinding, the part at whose beginning it failed. *)
Definition remaining (t : task) : list fetch :=
  match t with
  | Opening feed => feed
  | Paging rest => rest
  | Sending cur rest => Page cur :: rest
  | Failing _ rest _ => rest
  | Leaving | Done => []
  end.

(** A task that is unwinding does so with the exception its feed raises
    at that point. *)
Definition raised (t : task) : Prop :=
  match t with
  | Failing e rest _ => head (trace rest) = Some (Raise e)
  | _ => True
  end.

(** ** Interleavings *)

(** [Interleaving ls s]: [s] merges the sequences [ls], each in its own
    order. *)
Inductive Interleaving {A : Type} : list (list A) → list A → Prop :=
  | Interleaving_nil ls :
      Forall (λ l, l = []) ls → Interleaving ls []
  | Interleaving_cons i x l ls s :
      ls !! i = Some (x :: l) →
      Interleaving (<[i := l]> ls) s →
      Interleaving ls (x :: s).

(** The fetch tasks that still hold an open clone of the send stream. *)
Definition live (ts : list task) : nat :=
  length (List.filter holds_clone ts).

(** What the stream has carried so far is a merge of what each task has
    sent, and each task's feed is what it sent followed by what it has
    not got through. *)
Definition stream_inv (feeds : list (list fetch)) (ts : list task)
    (rcv : list Pricing) : Prop :=
  ∃ sent : list (list Pricing),
    length sent = length feeds ∧
    length ts = length feeds ∧
    Interleaving sent rcv ∧
    ∀ i feed, feeds !! i = Some feed →
      ∃ t s, ts !! i = Some t ∧ sent !! i = Some s ∧
             trace feed = (Ok <$> s) ++ trace (remaining t) ∧
             raised t.

Section Pipeline.

(** The body of the consumer's [async for] loop. *)
Variable body : Pricing → result bool.

Definition set_task (i : nat) (t : task) (st : state) : state :=
  {| tasks := <[i := t]> (tasks st);
     open_send_channels := open_send_channels st;
     received := received st;
     printed := printed st;
     run_status := run_status st |}.

(** The block of [async with ..., output] is left: the task's clone is
    closed, and the task goes on as [t], with the client still to
    leave. *)
Definition close_clone (i : nat) (t : task) (st : state) : state :=
  {| tasks := <[i := t]> (tasks st);
     open_send_channels := pred (open_send_channels st);
     received := received st;
     printed := printed st;
     run_status := run_status st |}.

Definition abort (e : exn) (st : state) : state :=
  {| tasks := tasks st;
     open_send_channels := open_send_channels st;
     received := received st;
     printed := printed st;
     run_status := Aborted e |}.

(** The consumer takes [pricing] off the stream and runs the loop body. *)
Definition deliver (pricing : Pricing) (st : state) : state :=
  let st' :=
    {| tasks := tasks st;
       open_send_channels := open_send_channels st;
       received := received st ++ [pricing];
       printed := printed st;
       run_status := run_status st |} in
  match body pricing with
  | Ok true =>
      {| tasks := tasks st';
         open_send_channels := open_send_channels st';
         received := received st';
         printed := printed st' ++ [pricing];
         run_status := run_status st' |}
  | Ok false => st'
  | Raise e => abort e st'
  end.

(** The paginator is asked for its next page: the pages are exhausted and
    the block is left, or a page arrives, or the paginator raises and the
    exception leaves the block. *)
Definition next_page (i : nat) (rest : list fetch) (st : state) : state :=
  match rest with
  | [] => close_clone i Leaving st
  | Page l :: rest' => set_task i (Sending l rest') st
  | Fault :: _ | Refused :: _ => close_clone i (Failing FetchError rest false) st
  end.

(** [query_region], one suspension point at a time.  A task that has
    left its block ends at its next step; when it ends with an exception
    the task group is cancelled. *)
Definition task_step (i : nat) (st : state) : state :=
  match tasks st !! i with
  | None | Some Done => st
  | Some (Opening (Refused :: rest)) =>
      set_task i (Failing FetchError (Refused :: rest) true) st
  | Some (Opening feed) => next_page i feed st
  | Some (Paging rest) => next_page i rest st
  | Some (Sending [] rest) => set_task i (Paging rest) st
  | Some (Sending (data :: cur) rest) =>
      match from_dict data with
      | Ok pricing => deliver pricing (set_task i (Sending cur rest) st)
      | Raise e => close_clone i (Failing e (Page (data :: cur) :: rest) false) st
      end
  | Some Leaving => set_task i Done st
  | Some (Failing e _ _) => abort e (set_task i Done st)
  end.

(** The consumer waiting at [async for]: the iteration ends once no
    send stream is open.  [main] then waits for the tasks that are still
    leaving, and returns unless one of them is unwinding with an
    exception. *)
Definition consumer_step (st : state) : state :=
  if Nat.eqb (open_send_channels st) 0 then
    {| tasks := tasks st;
       open_send_channels := open_send_channels st;
       received := received st;
       printed := printed st;
       run_status :=
         match head (omap failure (tasks st)) with
         | Some e => Aborted e
         | None => Closed
         end |}
  else st.

Definition step (st : state) (c : pick) : state :=
  match run_status st with
  | Running =>
      match c with
      | Task i => task_step i st
      | Consumer => consumer_step st
      end
  | _ => st
  end.

Definition exec (sched : list pick) (st : state) : state :=
  fold_left step sched st.

(** [tg.start_soon(query_region, region, send_stream.clone())] *)
Definition start_soon (st : state) (feed : list fetch) : state :=
  {| tasks := tasks st ++ [Opening feed];
     open_send_channels := S (open_send_channels st);
     received := received st;
     printed := printed st;
     run_status := run_status st |}.

(** [main] up to the [async for]: the stream is created with one send
    end, every region gets a clone, the original is closed. *)
Definition spawn (feeds : list (list fetch)) : state :=
  let st0 :=
    {| tasks := []; open_send_channels := 1; received := [];
       printed := []; run_status := Running |} in
  let st := fold_left start_soon feeds st0 in
  {| tasks := tasks st;
     open_send_channels := pred (open_send_channels st);
     received := received st;
     printed := printed st;
     run_status := run_status st |}.

Definition main (feeds : list (list fetch)) (sched : list pick) : state :=
  exec sched (spawn feeds).

(** The loop of [main] over a given stream, without the tasks: what is
    printed and the exception that ended the loop, if any. *)
Fixpoint consume (stream : list Pricing) : list Pricing * option exn :=
  match stream with
  | [] => ([], None)
  | pricing :: rest =>
      match body pricing with
      | Ok b =>
          let '(out, e) := consume rest in
          (if b then pricing :: out else out, e)
      | Raise e => ([], Some e)
      end
  end.

(** The invariant of a run over [feeds]. *)
Record run_inv (feeds : list (list fetch)) (st : state) : Prop := {
  inv_open : (∀ e, run_status st ≠ Aborted e) →
             open_send_channels st = live (tasks st);
  inv_printed : printed st = (consume (received st)).1;
  inv_running : (∀ e, run_status st ≠ Aborted e) →
                (consume (received st)).2 = None;
  inv_closed : run_status st = Closed →
               Forall (λ t, t = Leaving ∨ t = Done) (tasks st);
  inv_stream : (∀ e, run_status st ≠ Aborted e) →
               stream_inv feeds (tasks st) (received st)
}.

(** Task [i], which is unwinding at [st], ends the run with [e]: whatever
    is scheduled from [st], the run does not reach the end of the stream
    and the task sends nothing more; while the run is going the task is
    still unwinding, and the step at which it ends aborts the run with
    [e], after which nothing is received or printed, whatever is
    scheduled. *)
Definition ends_run_with (i : nat) (e : exn) (st : state) : Prop :=
  ∀ sched,
    let st' := exec sched st in
    run_status st' ≠ Closed ∧
    (tasks st' !! i = tasks st !! i ∨ tasks st' !! i = Some Done) ∧
    (run_status st' = Running →
     tasks st' !! i = tasks st !! i ∧
     ∀ more,
       let st'' := exec (Task i :: more) st' in
       run_status st'' = Aborted e ∧
       received st'' = received st' ∧
       printed st'' = printed st').

End Pipeline.

(** The "SpotPrice" field of a raw record, when it has one, is ASCII
    text; and so for every record of every page of [feeds].  These are
    the records and the runs for which [float_of_string] tells what
    [float] raises. *)
Definition ascii_price (data : raw) : bool :=
  match data !! "SpotPrice" with
  | Some price => PyFloat.is_ascii price
  | None => true
  end.

Definition ascii_prices (feeds : list (list fetch)) : bool :=
  forallb (forallb (λ f, match f with
                         | Page l => forallb ascii_price l
                         | Fault | Refused => true
                         end)) feeds.

(** A schedule that serves the tasks in turn, [n] rounds, then lets the
    consumer see the end of the stream. *)
Definition round_robin (ntasks n : nat) : list pick :=
  mjoin (replicate n (Task <$> seq 0 ntasks)) ++ [Consumer].

(** The steps a task takes from its start to its end: one per page
    fetched, one per record sent, one to come back for the next page,
    one to leave the send stream and one to leave the client; a task
    whose paginator or client raises takes two. *)
Fixpoint task_steps (feed : list fetch) : nat :=
  match feed with
  | [] => 2
  | Page l :: rest => S (length l + S (task_steps rest))
  | Fault :: _ | Refused :: _ => 2
  end.

(** The schedule that runs the tasks to their ends one after the other,
    the first of them being task [i], then lets the consumer see the end
    of the stream. *)
Fixpoint sequential_from (i : nat) (feeds : list (list fetch)) : list pick :=
  match feeds with
  | [] => [Consumer]
  | feed :: feeds => replicate (task_steps feed) (Task i) ++ sequential_from (S i) feeds
  end.

Definition sequential (feeds : list (list fetch)) : list pick :=
  sequential_from 0 feeds.

(** Whether the loop body prints a record. *)
Definition accepts (body : Pricing → result bool) (pricing : Pricing) : bool :=
  match body pricing with
  | Ok b => b
  | Raise _ => false
  end.

(** What a task has still to do, counted in steps: a measure that every
    step of a task that has not ended brings down. *)
Definition task_work (t : task) : nat :=
  match t with
  | Opening feed => task_steps feed
  | Paging rest => task_steps rest
  | Sending cur rest => length cur + S (task_steps rest)
  | Leaving | Failing _ _ _ => 1
  | Done => 0
  end.

Definition work (ts : list task) : nat :=
  sum_list (task_work <$> ts).

(** ** Sample inputs *)

Module Sample.

Definition pricing (it : string) (price : PrimFloat.float) : Pricing :=
  {| instance_type := it; zone_id := "use1-az1"; spot_price := price |}.

Definition data (it price : string) : raw :=
  SpotPriceTypeDef it "use1-az1" price.

(** Two regions of one page each; the first record has a size the
    table does not know. *)
Definition feeds_weird : list (list fetch) :=
  [[Page [data "X.weird" "0.10"]]; [Page [data "g5.xlarge" "0.10"]]].

(** A region that fails after its first page, and a healthy one. *)
Definition feeds_fault : list (list fetch) :=
  [[Page [data "c8g.48xlarge" "0.90"]; Fault];
   [Page [data "c8g.metal-48xl" "1.00"]]].

(** A fast region that fails at once, and a slow one. *)
Definition feeds_fast_fault : list (list fetch) :=
  [[Fault]; [Page [data "c8g.48xlarge" "0.90"]]].

(** A region whose client cannot be created, and a healthy one. *)
Definition feeds_refused : list (list fetch) :=
  [[Refused]; [Page [data "c8g.48xlarge" "0.90"]]].

(** Two healthy regions. *)
Definition feeds_healthy : list (list fetch) :=
  [[Page [data "c8g.48xlarge" "0.90"]; Page [data "c8g.48xlarge" "1.30"]];
   [Page []; Page [data "c8g.metal-48xl" "1.00"]]].

(** A page whose second record lacks a field. *)
Definition feeds_missing (key : string) : list (list fetch) :=
  [[Page [data "c8g.48xlarge" "0.90";
          delete key (data "c8g.48xlarge" "0.95");
          data "c8g.metal-48xl" "1.00"]]].

(** A page whose first record has a price that is no number. *)
Definition feeds_unparsable : list (list fetch) :=
  [[Page [data "c8g.48xlarge" "n/a"; data "c8g.48xlarge" "0.90"]]].

End Sample.

(** * Properties *)

(** ** Sanity checks of the executable model *)

Example float_of_string_literals :
  PyFloat.float_of_string "0.49" = Some 0.49%float ∧
  PyFloat.float_of_string "2.35" = Some 2.35%float ∧
  PyFloat.float_of_string "1.2" = Some 1.2%float ∧
  PyFloat.float_of_string " -1_0.5e-1 " = Some (-1.05)%float ∧
  PyFloat.float_of_string "1e400" = Some infinity ∧
  PyFloat.float_of_string "2.4703282292062328e-324" = Some 5e-324%float ∧
  PyFloat.float_of_string "2.4703282292062327e-324" = Some 0%float ∧
  PyFloat.float_of_string "9007199254740993" = Some 9007199254740992%float ∧
  PyFloat.float_of_string "-Infinity" = Some neg_infinity.
Proof. vm_compute. repeat split. Qed.

Example float_of_string_rejects :
  Forall (λ s, PyFloat.float_of_string s = None)
    ["abc"; ""; "."; "1e"; "1_"; "_1"; "1__0"; "1 0"; "0x10"; "infinit"; "--1"].
Proof. repeat (apply List.Forall_cons; [vm_compute; reflexivity |]). apply List.Forall_nil. Qed.

Example split_examples :
  split "." "g5.48xlarge" = ["g5"; "48xlarge"] ∧
  split "." "a..b." = ["a"; ""; "b"; ""] ∧
  split "." "" = [""].
Proof. repeat split. Qed.

(** ** Strings and error results *)

Lemma one_of_elem_of (s : string) (l : list string) :
  one_of s l = true ↔ s ∈ l.
Proof.
  unfold one_of. rewrite existsb_exists. split.
  - intros (x & Hin & Heq). apply String.eqb_eq in Heq. subst x.
    by apply list_elem_of_In.
  - intros Hin. exists s. split; [by apply list_elem_of_In | apply String.eqb_refl].
Qed.

Lemma one_of_not_elem_of (s : string) (l : list string) :
  one_of s l = false ↔ s ∉ l.
Proof.
  rewrite <- one_of_elem_of. destruct (one_of s l); split; congruence.
Qed.

Lemma split_no_sep (sep : ascii) (s : string) :
  sep ∉ list_ascii_of_string s → split sep s = [s].
Proof.
  induction s as [| c s IH]; simpl; [done |].
  intros Hnot. apply not_elem_of_cons in Hnot as [Hne Hnot].
  destruct (Ascii.eqb_spec c sep) as [-> | _]; [done |].
  by rewrite (IH Hnot).
Qed.

Lemma split_nonempty (sep : ascii) (s : string) : split sep s ≠ [].
Proof.
  destruct s as [| c s]; simpl; [done |].
  destruct (Ascii.eqb c sep); [done |].
  by destruct (split sep s).
Qed.

#[local] Instance Ok_inj {A : Type} : Inj (=) (=) (@Ok A).
Proof. by intros a b [= ->]. Qed.

(** ** [float] gives a value for ASCII text only *)

Lemma is_space_ascii (c : ascii) : PyFloat.is_space c = true → PyFloat.ascii_char c = true.
Proof. destruct c as [[] [] [] [] [] [] [] []]; by vm_compute. Qed.

Lemma is_digit_ascii (c : ascii) : PyFloat.is_digit c = true → PyFloat.ascii_char c = true.
Proof. destruct c as [[] [] [] [] [] [] [] []]; by vm_compute. Qed.

Lemma lower_ascii (c : ascii) : PyFloat.ascii_char (PyFloat.lower c) = true → PyFloat.ascii_char c = true.
Proof. destruct c as [[] [] [] [] [] [] [] []]; by vm_compute. Qed.

Lemma strip_underscores_ascii (prev : ascii) (s t : list ascii) :
  PyFloat.strip_underscores prev s = Some t →
  forallb PyFloat.ascii_char t = true → forallb PyFloat.ascii_char s = true.
Proof.
  revert prev t. induction s as [| c s IH]; intros prev t; simpl; [done |].
  destruct (Ascii.eqb_spec c "_") as [-> | Hne].
  - destruct (PyFloat.is_digit prev); [| done]. intros Hs Ht. simpl. by eapply IH.
  - destruct (Ascii.eqb prev "_" && negb (PyFloat.is_digit c)); [done |].
    destruct (PyFloat.strip_underscores c s) as [t' |] eqn:Hs; [| done].
    intros [= <-]. simpl. intros [Hc Ht]%andb_prop. rewrite Hc. simpl. by eapply IH.
Qed.

Lemma lstrip_ascii (s : list ascii) :
  forallb PyFloat.ascii_char (PyFloat.lstrip s) = true → forallb PyFloat.ascii_char s = true.
Proof.
  induction s as [| c s IH]; simpl; [done |].
  destruct (PyFloat.is_space c) eqn:Hc; [| done].
  intros Hs. by rewrite (is_space_ascii _ Hc), IH.
Qed.

Lemma forallb_rev {A} (f : A → bool) (l : list A) :
  forallb f (rev l) = forallb f l.
Proof.
  induction l as [| x l IH]; simpl; [done |].
  rewrite forallb_app, IH. simpl. rewrite andb_true_r. apply andb_comm.
Qed.

Lemma strip_ascii (s : list ascii) :
  forallb PyFloat.ascii_char (PyFloat.strip s) = true → forallb PyFloat.ascii_char s = true.
Proof.
  unfold PyFloat.strip. rewrite forallb_rev. intros H%lstrip_ascii.
  rewrite forallb_rev in H. by apply lstrip_ascii.
Qed.

Lemma take_sign_ascii (s body : list ascii) (neg : bool) :
  PyFloat.take_sign s = (neg, body) →
  forallb PyFloat.ascii_char body = true → forallb PyFloat.ascii_char s = true.
Proof.
  unfold PyFloat.take_sign.
  destruct s as [| c s]; [by intros [= <- <-] |].
  destruct (Ascii.eqb_spec c "-") as [-> | Hm]; [by intros [= <- <-] |].
  destruct (Ascii.eqb_spec c "+") as [-> | Hp]; [by intros [= <- <-] |].
  destruct c as [[] [] [] [] [] [] [] []]; try done; by intros [= <- <-].
Qed.

Lemma span_digits_ascii (s ds r : list ascii) :
  PyFloat.span_digits s = (ds, r) →
  s = ds ++ r ∧ forallb PyFloat.ascii_char ds = true.
Proof.
  revert ds r. induction s as [| c s IH]; intros ds r; simpl; [by intros [= <- <-] |].
  destruct (PyFloat.is_digit c) eqn:Hc; [| by intros [= <- <-]].
  destruct (PyFloat.span_digits s) as [ds' r'] eqn:Hs. intros [= <- <-].
  destruct (IH ds' r' eq_refl) as [-> Hds]. split; [done |].
  simpl. by rewrite (is_digit_ascii _ Hc).
Qed.

Lemma parse_exponent_ascii (s : list ascii) (ex : Z) :
  PyFloat.parse_exponent s = Some ex → forallb PyFloat.ascii_char s = true.
Proof.
  unfold PyFloat.parse_exponent. destruct s as [| c r]; [done |].
  destruct (Ascii.eqb_spec (PyFloat.lower c) "e") as [He | _]; [| done].
  destruct (PyFloat.take_sign r) as [neg r'] eqn:Hsign.
  destruct (PyFloat.span_digits r') as [ds rest] eqn:Hspan.
  destruct ds as [| d ds]; [done |]. destruct rest; [| done]. intros _.
  destruct (span_digits_ascii _ _ _ Hspan) as [Hr' Hds]. rewrite app_nil_r in Hr'.
  simpl. rewrite (lower_ascii c) by (by rewrite He). simpl.
  apply (take_sign_ascii _ _ _ Hsign). by rewrite Hr'.
Qed.

Lemma parse_decimal_ascii (s : list ascii) (m e : Z) :
  PyFloat.parse_decimal s = Some (m, e) → forallb PyFloat.ascii_char s = true.
Proof.
  unfold PyFloat.parse_decimal.
  destruct (PyFloat.span_digits s) as [ip r1] eqn:Hip.
  destruct (span_digits_ascii _ _ _ Hip) as [-> Hipa].
  assert (∃ fp r2,
    match r1 with
    | "."%char :: r => PyFloat.span_digits r
    | _ => ([], r1)
    end = (fp, r2) ∧
    (forallb PyFloat.ascii_char r2 = true → forallb PyFloat.ascii_char r1 = true)) as (fp & r2 & -> & Hr).
  { destruct r1 as [| c r]; [by eexists _, _ |].
    destruct (Ascii.eqb_spec c ".") as [-> | Hne].
    - destruct (PyFloat.span_digits r) as [fp r2] eqn:Hfp.
      destruct (span_digits_ascii _ _ _ Hfp) as [-> Hfpa].
      exists fp, r2. split; [done |]. intros Hr2. simpl. by rewrite forallb_app, Hfpa.
    - exists [], (c :: r). split; [| done].
      destruct c as [[] [] [] [] [] [] [] []]; done. }
  destruct (ip ++ fp); [done |].
  destruct (PyFloat.parse_exponent r2) as [ex |] eqn:Hex; [| done]. intros _.
  rewrite forallb_app, Hipa. simpl. apply Hr. by eapply parse_exponent_ascii.
Qed.

Lemma parse_inf_nan_ascii (neg : bool) (s : list ascii) (f : PrimFloat.float) :
  PyFloat.parse_inf_nan neg s = Some f → forallb PyFloat.ascii_char s = true.
Proof.
  unfold PyFloat.parse_inf_nan.
  set (w := string_of_list_ascii (map PyFloat.lower s)).
  assert (forallb PyFloat.ascii_char (list_ascii_of_string w) = true →
          forallb PyFloat.ascii_char s = true) as Hw.
  { subst w. rewrite list_ascii_of_string_of_list_ascii. clear.
    induction s as [| c s IH]; simpl; [done |].
    intros [Hc Hs]%andb_prop. by rewrite (lower_ascii _ Hc), IH. }
  destruct (one_of w ["inf"; "infinity"]) eqn:H1.
  - intros _. apply Hw. apply one_of_elem_of in H1.
    rewrite !elem_of_cons, elem_of_nil in H1. by destruct H1 as [-> | [-> | []]].
  - destruct (String.eqb_spec w "nan") as [-> | _]; [| done]. intros _. by apply Hw.
Qed.

(** Outside ASCII text [float_of_string] gives no value: a value it
    gives is for a string on which [float] is modelled. *)
Lemma float_of_string_ascii (s : string) (f : PrimFloat.float) :
  PyFloat.float_of_string s = Some f → PyFloat.is_ascii s = true.
Proof.
  unfold PyFloat.float_of_string, PyFloat.is_ascii.
  destruct (PyFloat.strip_underscores "000" (list_ascii_of_string s)) as [t |] eqn:Ht;
    [| done].
  cbn [mbind option_bind].
  destruct (PyFloat.take_sign (PyFloat.strip t)) as [neg body] eqn:Hsign.
  intros Hf. apply (strip_underscores_ascii _ _ _ Ht), strip_ascii.
  apply (take_sign_ascii _ _ _ Hsign).
  destruct (PyFloat.parse_inf_nan neg body) as [g |] eqn:Hinf;
    [by eapply parse_inf_nan_ascii |].
  destruct (PyFloat.parse_decimal body) as [[m e] |] eqn:Hdec; [| done].
  by eapply parse_decimal_ascii.
Qed.

(** ** Interleavings are permutations of the concatenation *)

Section Interleavings.
Context {A : Type}.
Implicit Types (ls : list (list A)) (s l : list A).

Lemma concat_lookup_cons ls i x l :
  ls !! i = Some (x :: l) → concat ls ≡ₚ x :: concat (<[i := l]> ls).
Proof.
  revert i. induction ls as [| l0 ls IH]; intros [| i] Hi; simplify_eq/=.
  - done.
  - rewrite (IH _ Hi). by rewrite Permutation_middle.
Qed.

Lemma Interleaving_Permutation ls s :
  Interleaving ls s → s ≡ₚ concat ls.
Proof.
  induction 1 as [ls Hnil | i x l ls s Hi _ IH].
  - induction Hnil as [| l ls -> _ IH]; [done | by simpl].
  - by rewrite (concat_lookup_cons _ _ _ _ Hi), IH.
Qed.

Lemma Interleaving_snoc ls s i l x :
  Interleaving ls s → ls !! i = Some l →
  Interleaving (<[i := l ++ [x]]> ls) (s ++ [x]).
Proof.
  intros HI. revert i l. induction HI as [ls Hnil | j y l' ls s Hj _ IH]; intros i l Hi.
  - assert (l = []) as ->.
    { rewrite Forall_lookup in Hnil. by apply (Hnil i). }
    pose proof (lookup_lt_Some _ _ _ Hi) as Hlt.
    apply (Interleaving_cons i x []).
    + by apply list_lookup_insert_eq.
    + apply Interleaving_nil. rewrite list_insert_insert_eq.
      by apply Forall_insert.
  - simpl. destruct (decide (i = j)) as [-> | Hne].
    + simplify_eq. pose proof (lookup_lt_Some _ _ _ Hj) as Hlt.
      apply (Interleaving_cons j y (l' ++ [x])).
      * by apply list_lookup_insert_eq.
      * rewrite list_insert_insert_eq.
        rewrite <- (list_insert_insert_eq ls j (l' ++ [x]) l').
        apply IH. by apply list_lookup_insert_eq.
    + apply (Interleaving_cons j y l').
      * by rewrite list_lookup_insert_ne.
      * rewrite list_insert_insert_ne by done.
        apply IH. by rewrite list_lookup_insert_ne.
Qed.

End Interleavings.

(** ** The run: invariants of [main] *)

Lemma live_insert (ts : list task) (i : nat) (t t' : task) :
  ts !! i = Some t →
  live (<[i := t']> ts) + (if holds_clone t then 1 else 0)
  = live ts + (if holds_clone t' then 1 else 0).
Proof.
  unfold live. revert i. induction ts as [| t0 ts IH]; intros [| i] Hi; simplify_eq/=.
  - destruct (holds_clone t), (holds_clone t'); simpl; lia.
  - specialize (IH _ Hi). destruct (holds_clone t0); simpl; lia.
Qed.


(** When no task holds a clone and none is unwinding, every task has
    left its send stream in the normal way. *)
Lemma all_left (ts : list task) :
  live ts = 0 → head (omap failure ts) = None →
  Forall (λ t, t = Leaving ∨ t = Done) ts.
Proof.
  unfold live. induction ts as [| t ts IH]; simpl; [by constructor |].
  destruct t as [feed | rest | cur rest | | e rest [] |]; simpl; try done.
  - intros H0 Hf. constructor; [by left | by apply IH].
  - intros H0 Hf. constructor; [by right | by apply IH].
Qed.

Lemma all_left_inv (ts : list task) :
  Forall (λ t, t = Leaving ∨ t = Done) ts →
  live ts = 0 ∧ head (omap failure ts) = None ∧
  Forall (λ t, remaining t = []) ts.
Proof.
  unfold live. induction 1 as [| t ts [-> | ->] _ (IH1 & IH2 & IH3)]; simpl;
    repeat split; try done; by constructor.
Qed.

Lemma stream_inv_set_task feeds ts rcv i t t' :
  ts !! i = Some t →
  trace (remaining t') = trace (remaining t) →
  raised t' →
  stream_inv feeds ts rcv → stream_inv feeds (<[i := t']> ts) rcv.
Proof.
  intros Hi Htr Hr (sent & Hlen & Hlen' & HI & Hall). exists sent.
  rewrite length_insert. repeat split; [done.. |].
  intros j feed Hj. destruct (Hall j feed Hj) as (tj & s & Htj & Hs & Heq & Hrj).
  destruct (decide (j = i)) as [-> | Hne].
  - exists t', s. simplify_eq. repeat split; [| done | by rewrite Htr | done].
    apply list_lookup_insert_eq. by eapply lookup_lt_Some.
  - exists tj, s. by rewrite list_lookup_insert_ne.
Qed.

Lemma stream_inv_send feeds ts rcv i data pricing cur rest :
  ts !! i = Some (Sending (data :: cur) rest) →
  from_dict data = Ok pricing →
  stream_inv feeds ts rcv →
  stream_inv feeds (<[i := Sending cur rest]> ts) (rcv ++ [pricing]).
Proof.
  intros Hi Hdec (sent & Hlen & Hlen' & HI & Hall).
  pose proof (lookup_lt_Some _ _ _ Hi) as Hlt.
  destruct (lookup_lt_is_Some_2 sent i) as [si Hsi]; [lia |].
  exists (<[i := si ++ [pricing]]> sent). rewrite !length_insert.
  repeat split; [done | done | by apply Interleaving_snoc |].
  intros j feed Hj. destruct (Hall j feed Hj) as (tj & s & Htj & Hs & Heq & Hrj).
  destruct (decide (j = i)) as [-> | Hne].
  - exists (Sending cur rest), (si ++ [pricing]). simplify_eq.
    repeat split.
    + by apply list_lookup_insert_eq.
    + apply list_lookup_insert_eq. lia.
    + rewrite Heq. simpl. rewrite Hdec, fmap_app. simpl.
      by rewrite <- app_assoc.
  - exists tj, s. by rewrite !list_lookup_insert_ne.
Qed.

Lemma stream_inv_init (feeds : list (list fetch)) :
  stream_inv feeds (Opening <$> feeds) [].
Proof.
  exists (replicate (length feeds) []).
  rewrite length_replicate, length_fmap. repeat split.
  - apply Interleaving_nil. by apply Forall_replicate.
  - intros i feed Hi. exists (Opening feed), []. repeat split.
    + by rewrite list_lookup_fmap, Hi.
    + apply lookup_replicate_2. by eapply lookup_lt_Some.
Qed.

(** Once every task has left its send stream in the normal way the
    stream has carried every record of every feed, and no feed had a
    fault or a record that does not decode. *)
Lemma stream_inv_done feeds ts rcv :
  stream_inv feeds ts rcv → Forall (λ t, t = Leaving ∨ t = Done) ts →
  ∃ seqs, Forall2 (λ feed seq, trace feed = Ok <$> seq) feeds seqs ∧
          Interleaving seqs rcv.
Proof.
  intros (sent & Hlen & Hlen' & HI & Hall) Hdone. exists sent. split; [| done].
  apply all_left_inv in Hdone as (_ & _ & Hdone).
  apply Forall2_same_length_lookup_2; [done |].
  intros i feed s Hfeed Hs.
  destruct (Hall i feed Hfeed) as (t & s' & Ht & Hs' & Heq & _). simplify_eq.
  rewrite Forall_lookup in Hdone. rewrite (Hdone _ _ Ht) in Heq.
  simpl in Heq. by rewrite app_nil_r in Heq.
Qed.

Section Run.
Variable body : Pricing → result bool.

(** Nothing runs once the stream is closed or the run is aborted. *)
Lemma step_not_running st c :
  run_status st ≠ Running → step body st c = st.
Proof. unfold step. by destruct (run_status st). Qed.

Lemma exec_not_running sched st :
  run_status st ≠ Running → exec body sched st = st.
Proof.
  intros Hst. unfold exec. induction sched as [| c sched IH]; simpl; [done |].
  by rewrite step_not_running.
Qed.

Lemma exec_cons c sched st :
  exec body (c :: sched) st = exec body sched (step body st c).
Proof. done. Qed.

Lemma exec_app sched1 sched2 st :
  exec body (sched1 ++ sched2) st = exec body sched2 (exec body sched1 st).
Proof. apply fold_left_app. Qed.

(** The loop one record further. *)
Lemma consume_snoc stream pricing :
  (consume body stream).2 = None →
  consume body (stream ++ [pricing]) =
    match body pricing with
    | Ok b => ((consume body stream).1 ++ (if b then [pricing] else []), None)
    | Raise e => ((consume body stream).1, Some e)
    end.
Proof.
  induction stream as [| p stream IH]; simpl.
  - intros _. by destruct (body pricing) as [[] |].
  - destruct (body p) as [b | e]; [| done].
    destruct (consume body stream) as [out err] eqn:Hc. simpl in *.
    intros ->. rewrite IH by done.
    by destruct (body pricing) as [[] |], b.
Qed.

(** A loop body that never raises is a filter. *)
Lemma consume_filter stream :
  Forall (λ p, is_ok (body p) = true) stream →
  consume body stream = (List.filter (accepts body) stream, None).
Proof.
  induction 1 as [| p stream Hp _ IH]; simpl; [done |].
  unfold accepts at 1. destruct (body p) as [b | e]; [| done].
  rewrite IH. by destruct b.
Qed.

Lemma spawn_fold feeds st :
  tasks (fold_left start_soon feeds st) = tasks st ++ (Opening <$> feeds) ∧
  open_send_channels (fold_left start_soon feeds st)
    = open_send_channels st + length feeds ∧
  received (fold_left start_soon feeds st) = received st ∧
  printed (fold_left start_soon feeds st) = printed st ∧
  run_status (fold_left start_soon feeds st) = run_status st.
Proof.
  revert st. induction feeds as [| feed feeds IH]; intros st; simpl.
  - by rewrite app_nil_r, Nat.add_0_r.
  - destruct (IH (start_soon st feed)) as (-> & -> & -> & -> & ->). simpl.
    rewrite <- app_assoc. repeat split. lia.
Qed.

Lemma spawn_eq feeds :
  spawn feeds =
    {| tasks := Opening <$> feeds; open_send_channels := length feeds;
       received := []; printed := []; run_status := Running |}.
Proof.
  unfold spawn.
  destruct (spawn_fold feeds
    {| tasks := []; open_send_channels := 1; received := [];
       printed := []; run_status := Running |}) as (-> & -> & -> & -> & ->).
  done.
Qed.

Lemma live_opening (feeds : list (list fetch)) :
  live (Opening <$> feeds) = length feeds.
Proof. unfold live. induction feeds; csimpl; [done | lia]. Qed.

Lemma run_inv_spawn feeds : run_inv body feeds (spawn feeds).
Proof.
  rewrite spawn_eq. split; simpl; try done.
  - intros _. by rewrite live_opening.
  - intros _. apply stream_inv_init.
Qed.

(** A task moves on without sending: it keeps its clone, or closes it. *)
Lemma run_inv_move feeds st i t t' :
  run_inv body feeds st →
  run_status st = Running →
  tasks st !! i = Some t →
  trace (remaining t') = trace (remaining t) →
  raised t' →
  (holds_clone t' = holds_clone t → run_inv body feeds (set_task i t' st)) ∧
  (holds_clone t = true → holds_clone t' = false →
   run_inv body feeds (close_clone i t' st)).
Proof.
  intros [Hopen Hpr Hrun Hcl Hstr] Hst Hi Htr Hr.
  assert (∀ e, run_status st ≠ Aborted e) as Hna by (intros e; by rewrite Hst).
  specialize (Hopen Hna). specialize (Hrun Hna). specialize (Hstr Hna).
  pose proof (live_insert (tasks st) i t t' Hi) as Hlive.
  pose proof (stream_inv_set_task _ _ _ _ _ _ Hi Htr Hr Hstr) as Hs.
  split.
  - intros Hh. rewrite Hh in Hlive. split; simpl; rewrite ?Hst; try done.
    intros _. lia.
  - intros Hh Hh'. rewrite Hh, Hh' in Hlive. split; simpl; rewrite ?Hst; try done.
    intros _. lia.
Qed.

Lemma run_inv_next_page feeds st i t rest :
  run_inv body feeds st →
  run_status st = Running →
  tasks st !! i = Some t →
  holds_clone t = true →
  remaining t = rest →
  run_inv body feeds (next_page i rest st).
Proof.
  intros Hinv Hst Hi Hh Hrem. unfold next_page.
  destruct rest as [| [l | |] rest'].
  - apply (run_inv_move feeds st i t Leaving); try done. by rewrite Hrem.
  - apply (run_inv_move feeds st i t (Sending l rest')); try done. by rewrite Hrem.
  - apply (run_inv_move feeds st i t (Failing FetchError (Fault :: rest') false));
      try done. by rewrite Hrem.
  - apply (run_inv_move feeds st i t (Failing FetchError (Refused :: rest') false));
      try done. by rewrite Hrem.
Qed.

Lemma run_inv_step feeds st c :
  run_inv body feeds st → run_inv body feeds (step body st c).
Proof.
  intros Hinv. unfold step.
  destruct (run_status st) eqn:Hst; [| done..].
  destruct c as [i |].
  - (* a fetch task *)
    unfold task_step. destruct (tasks st !! i) as [t |] eqn:Hi; [| done].
    destruct t as [feed | rest | [| data cur] rest | | e rest b |].
    + (* entering the block *)
      assert (run_inv body feeds (next_page i feed st)) as Hnext
        by (by eapply run_inv_next_page).
      destruct feed as [| [l | |] rest]; try done.
      by apply (run_inv_move feeds st i (Opening (Refused :: rest))
                  (Failing FetchError (Refused :: rest) true)).
    + (* the next page *)
      by eapply run_inv_next_page.
    + (* the page is finished *)
      by apply (run_inv_move feeds st i (Sending [] rest) (Paging rest)).
    + (* the next record of the page *)
      destruct (from_dict data) as [pricing | e] eqn:Hdec.
      * destruct Hinv as [Hopen Hpr Hrun Hcl Hstr].
        assert (∀ e, run_status st ≠ Aborted e) as Hna by (intros e; by rewrite Hst).
        specialize (Hopen Hna). specialize (Hrun Hna). specialize (Hstr Hna).
        unfold deliver. simpl.
        pose proof (consume_snoc (received st) pricing Hrun) as Hsnoc.
        pose proof (live_insert (tasks st) i _ (Sending cur rest) Hi) as Hlive.
        simpl in Hlive.
        destruct (body pricing) as [[] | e] eqn:Hbody;
          split; simpl; rewrite ?Hst, ?Hsnoc; simpl;
          try done; try (intros _; lia); try (by rewrite Hpr, ?app_nil_r);
          try (intros Hne; by destruct (Hne e));
          intros _; by eapply stream_inv_send.
      * apply (run_inv_move feeds st i (Sending (data :: cur) rest)
                 (Failing e (Page (data :: cur) :: rest) false)); try done.
        simpl. by rewrite Hdec.
    + (* the client is left *)
      by apply (run_inv_move feeds st i Leaving Done).
    + (* the task ends with its exception *)
      destruct Hinv as [Hopen Hpr Hrun Hcl Hstr].
      split; simpl; try done; intros Hne; by destruct (Hne e).
    + done.
  - (* the consumer *)
    unfold consumer_step.
    destruct (Nat.eqb_spec (open_send_channels st) 0) as [H0 | Hn0]; [| done].
    destruct Hinv as [Hopen Hpr Hrun Hcl Hstr].
    assert (∀ e, run_status st ≠ Aborted e) as Hna by (intros e; by rewrite Hst).
    specialize (Hopen Hna). specialize (Hrun Hna). specialize (Hstr Hna).
    destruct (head (omap failure (tasks st))) as [e |] eqn:Hf.
    + split; simpl; try done; intros Hne; by destruct (Hne e).
    + split; simpl; try done. intros _. apply all_left; [lia | done].
Qed.

Lemma run_inv_exec feeds sched st :
  run_inv body feeds st → run_inv body feeds (exec body sched st).
Proof.
  unfold exec. revert st. induction sched as [| c sched IH]; intros st Hinv; simpl; [done |].
  by apply IH, run_inv_step.
Qed.

Lemma run_inv_main feeds sched : run_inv body feeds (main body feeds sched).
Proof. apply run_inv_exec, run_inv_spawn. Qed.

End Run.

(** ** Decoding *)

Lemma from_dict_fields (data : raw) (it zone price : string) :
  data !! "InstanceType" = Some it →
  data !! "AvailabilityZoneId" = Some zone →
  data !! "SpotPrice" = Some price →
  from_dict data =
    match PyFloat.float_of_string price with
    | Some f => Ok {| instance_type := it; zone_id := zone; spot_price := f |}
    | None => Raise (ValueError price)
    end.
Proof.
  intros Hit Hzone Hprice. unfold from_dict, dict_get, float.
  rewrite Hit, Hzone, Hprice. simpl.
  by destruct (PyFloat.float_of_string price).
Qed.

Lemma from_dict_SpotPriceTypeDef (it zone price : string) :
  from_dict (SpotPriceTypeDef it zone price) =
    match PyFloat.float_of_string price with
    | Some f => Ok {| instance_type := it; zone_id := zone; spot_price := f |}
    | None => Raise (ValueError price)
    end.
Proof. by apply from_dict_fields. Qed.

(** ** The ceilings *)

(** C1: in the per-unit pipeline a record with a unit count [n] and a
    family has the ceiling [n * 0.49], divided by [2.35] for G5 and left
    as it is for G6E, and it is printed exactly when its spot price is at
    most that ceiling.  A [g5.48xlarge] record has unit count 8 and a
    ceiling of about 1.668: priced "1.60" it is printed, priced "1.70" it
    is not. *)
Theorem gpu_ceiling_accept (pricing : Pricing) (n : Z) (family : Gpu.InstanceFamily) :
  Gpu.gpu_count pricing = Ok n →
  Gpu.instance_family pricing = Ok family →
  let ceiling :=
    match family with
    | Gpu.G5 => (float_of_int n * 0.49 / 2.35)%float
    | Gpu.G6E => (float_of_int n * 0.49)%float
    end in
  Gpu.max_price pricing = Ok ceiling ∧
  Gpu.body pricing = Ok (spot_price pricing <=? ceiling)%float ∧
  consume Gpu.body [pricing]
    = (if (spot_price pricing <=? ceiling)%float then [pricing] else [], None) ∧
  ∀ zone,
    let g5_48xlarge f :=
      {| instance_type := "g5.48xlarge"; zone_id := zone; spot_price := f |} in
    from_dict (SpotPriceTypeDef "g5.48xlarge" zone "1.60") = Ok (g5_48xlarge 1.60%float) ∧
    from_dict (SpotPriceTypeDef "g5.48xlarge" zone "1.70") = Ok (g5_48xlarge 1.70%float) ∧
    Gpu.gpu_count (g5_48xlarge 1.60%float) = Ok 8%Z ∧
    Gpu.instance_family (g5_48xlarge 1.60%float) = Ok Gpu.G5 ∧
    Gpu.max_price (g5_48xlarge 1.60%float) = Ok (8 * 0.49 / 2.35)%float ∧
    (1.668 <=? 8 * 0.49 / 2.35)%float = true ∧
    (8 * 0.49 / 2.35 <? 1.669)%float = true ∧
    Gpu.body (g5_48xlarge 1.60%float) = Ok true ∧
    Gpu.body (g5_48xlarge 1.70%float) = Ok false.
Proof.
  intros Hn Hfam ceiling.
  assert (Gpu.max_price pricing = Ok ceiling) as Hmax.
  { unfold Gpu.max_price. rewrite Hn. simpl. rewrite Hfam. simpl.
    subst ceiling. by destruct family. }
  assert (Gpu.body pricing = Ok (spot_price pricing <=? ceiling)%float) as Hbody.
  { unfold Gpu.body. by rewrite Hmax. }
  split; [done |]. split; [done |]. split.
  - simpl. rewrite Hbody. by destruct (spot_price pricing <=? ceiling)%float.
  - intros zone g5_48xlarge. rewrite !from_dict_SpotPriceTypeDef.
    repeat split; by vm_compute.
Qed.

Lemma gpu_ceiling_accept_witness :
  Gpu.gpu_count (Sample.pricing "g6e.12xlarge" 1.96) = Ok 4%Z ∧
  Gpu.instance_family (Sample.pricing "g6e.12xlarge" 1.96) = Ok Gpu.G6E ∧
  Gpu.max_price (Sample.pricing "g6e.12xlarge" 1.96)
    = Ok (float_of_int 4 * 0.49)%float ∧
  Gpu.body (Sample.pricing "g6e.12xlarge" 1.96)
    = Ok (1.96 <=? float_of_int 4 * 0.49)%float.
Proof.
  set (pricing := Sample.pricing "g6e.12xlarge" 1.96).
  assert (Gpu.gpu_count pricing = Ok 4%Z) as Hn by (by vm_compute).
  assert (Gpu.instance_family pricing = Ok Gpu.G6E) as Hfam by (by vm_compute).
  split; [exact Hn |]. split; [exact Hfam |].
  destruct (gpu_ceiling_accept pricing 4 Gpu.G6E Hn Hfam) as (Hmax & Hbody & _).
  split; [exact Hmax | exact Hbody].
Defined.

(** C2: in the flat pipeline the ceiling is the constant 1.2 whatever
    the instance type and the zone, and a record is printed exactly when
    its spot price is at most 1.2, the bound included: priced "1.00" it
    is printed, priced "1.2" it is printed, priced "1.25" it is not. *)
Theorem cpu_flat_accept :
  Cpu.MAX_PRICE = 1.2%float ∧
  (∀ pricing, Cpu.body pricing = Ok (spot_price pricing <=? 1.2)%float) ∧
  (∀ pricing,
     consume Cpu.body [pricing]
     = (if (spot_price pricing <=? 1.2)%float then [pricing] else [], None)) ∧
  (∀ p q, spot_price p = spot_price q → Cpu.body p = Cpu.body q) ∧
  ∀ it zone,
    let record f := {| instance_type := it; zone_id := zone; spot_price := f |} in
    from_dict (SpotPriceTypeDef it zone "1.00") = Ok (record 1.00%float) ∧
    from_dict (SpotPriceTypeDef it zone "1.2") = Ok (record 1.2%float) ∧
    from_dict (SpotPriceTypeDef it zone "1.25") = Ok (record 1.25%float) ∧
    Cpu.body (record 1.00%float) = Ok true ∧
    Cpu.body (record 1.2%float) = Ok true ∧
    Cpu.body (record 1.25%float) = Ok false.
Proof.
  split; [done |]. split; [done |]. split; [| split].
  - intros pricing. cbn. by destruct (PrimFloat.leb _ _).
  - intros p q Heq. unfold Cpu.body. by rewrite Heq.
  - intros it zone record. rewrite !from_dict_SpotPriceTypeDef.
    repeat split; by vm_compute.
Qed.

(** ** Derived attributes *)

(** C10: for a record whose instance type has no ".", reading
    [instance_size] raises [IndexError]; so do [gpu_count] and the loop
    body, and the size table, whose error is a [ValueError], is never
    reached. *)
Theorem instance_size_no_dot (pricing : Pricing) :
  "."%char ∉ list_ascii_of_string (instance_type pricing) →
  Gpu.instance_size pricing = Raise IndexError ∧
  Gpu.gpu_count pricing = Raise IndexError ∧
  Gpu.max_price pricing = Raise IndexError ∧
  Gpu.body pricing = Raise IndexError ∧
  ∀ arg, Gpu.gpu_count pricing ≠ Raise (ValueError arg).
Proof.
  intros Hdot.
  assert (Gpu.instance_size pricing = Raise IndexError) as Hsize.
  { unfold Gpu.instance_size. by rewrite (split_no_sep _ _ Hdot). }
  assert (Gpu.gpu_count pricing = Raise IndexError) as Hcount.
  { unfold Gpu.gpu_count. by rewrite Hsize. }
  assert (Gpu.max_price pricing = Raise IndexError) as Hmax.
  { unfold Gpu.max_price. by rewrite Hcount. }
  repeat split; try done.
  - unfold Gpu.body. by rewrite Hmax.
  - intros arg. by rewrite Hcount.
Qed.

Lemma instance_size_no_dot_witness :
  ("."%char ∉ list_ascii_of_string (instance_type (Sample.pricing "g5" 0.1))) ∧
  Gpu.instance_size (Sample.pricing "g5" 0.1) = Raise IndexError ∧
  Gpu.gpu_count (Sample.pricing "g5" 0.1) = Raise IndexError.
Proof.
  set (pricing := Sample.pricing "g5" 0.1).
  assert ("."%char ∉ list_ascii_of_string (instance_type pricing)) as Hdot.
  { simpl. rewrite !not_elem_of_cons. repeat split; [done | done |].
    apply not_elem_of_nil. }
  split; [exact Hdot |].
  destruct (instance_size_no_dot pricing Hdot) as (Hsize & Hcount & _).
  split; [exact Hsize | exact Hcount].
Defined.

(** ** Exceptions end the run *)

Lemma head_failure (ts : list task) (i : nat) (e : exn) (rest : list fetch) (b : bool) :
  ts !! i = Some (Failing e rest b) → is_Some (head (omap failure ts)).
Proof.
  revert i. induction ts as [| t ts IH]; intros [| i] Hi; simplify_eq/=.
  - by eexists.
  - destruct (failure t); [by eexists | by eapply IH].
Qed.

Lemma no_failure (ts : list task) :
  Forall (λ t, failure t = None) ts → head (omap failure ts) = None.
Proof. induction 1 as [| t ts Ht _ IH]; simpl; [done | by rewrite Ht]. Qed.

Section Failures.
Variable body : Pricing → result bool.

(** The step of a task whose paginator raises. *)
Lemma step_fault st i rest :
  run_status st = Running →
  tasks st !! i = Some (Opening (Fault :: rest)) ∨
  tasks st !! i = Some (Paging (Fault :: rest)) →
  step body st (Task i) = close_clone i (Failing FetchError (Fault :: rest) false) st.
Proof. intros Hst [Hi | Hi]; unfold step, task_step; by rewrite Hst, Hi. Qed.

(** The step of a task whose next record does not decode. *)
Lemma step_decode_error st i data cur rest e :
  run_status st = Running →
  tasks st !! i = Some (Sending (data :: cur) rest) →
  from_dict data = Raise e →
  step body st (Task i)
  = close_clone i (Failing e (Page (data :: cur) :: rest) false) st.
Proof. intros Hst Hi Hdec. unfold step, task_step. by rewrite Hst, Hi, Hdec. Qed.

(** The step at which a task that is unwinding ends. *)
Lemma step_failing st i e rest b :
  run_status st = Running →
  tasks st !! i = Some (Failing e rest b) →
  step body st (Task i) = abort e (set_task i Done st).
Proof. intros Hst Hi. unfold step, task_step. by rewrite Hst, Hi. Qed.

(** The step of a task that sends a record on which the loop body
    raises. *)
Lemma step_body_error st i data cur rest pricing e :
  run_status st = Running →
  tasks st !! i = Some (Sending (data :: cur) rest) →
  from_dict data = Ok pricing →
  body pricing = Raise e →
  let st' := step body st (Task i) in
  run_status st' = Aborted e ∧
  received st' = received st ++ [pricing] ∧
  printed st' = printed st.
Proof.
  intros Hst Hi Hdec Hbody. unfold step, task_step, deliver.
  by rewrite Hst, Hi, Hdec, Hbody.
Qed.

(** The step of a task that sends a record the loop body takes. *)
Lemma step_send st i data cur rest pricing b :
  run_status st = Running →
  tasks st !! i = Some (Sending (data :: cur) rest) →
  from_dict data = Ok pricing →
  body pricing = Ok b →
  let st' := step body st (Task i) in
  run_status st' = Running ∧
  received st' = received st ++ [pricing] ∧
  printed st' = printed st ++ (if b then [pricing] else []).
Proof.
  intros Hst Hi Hdec Hbody. unfold step, task_step, deliver.
  rewrite Hst, Hi, Hdec, Hbody. destruct b; simpl; by rewrite ?app_nil_r.
Qed.

Lemma exec_aborted sched st e :
  run_status st = Aborted e → exec body sched st = st.
Proof. intros Hst. apply exec_not_running. by rewrite Hst. Qed.

(** The step of a task changes no other task, and it leaves the run
    going or aborts it. *)
Lemma task_step_other st j :
  run_status st = Running →
  (∀ i, i ≠ j → tasks (task_step body j st) !! i = tasks st !! i) ∧
  (run_status (task_step body j st) = Running ∨
   ∃ e, run_status (task_step body j st) = Aborted e).
Proof.
  intros Hst. unfold task_step.
  destruct (tasks st !! j) as [t |] eqn:Hj; [| split; [done | by left]].
  assert (∀ t' i, i ≠ j → <[j := t']> (tasks st) !! i = tasks st !! i) as Hne
    by (intros t' i Hij; by rewrite list_lookup_insert_ne).
  destruct t as [feed | rest | [| data cur] rest | | e rest b |].
  - destruct feed as [| [l | |] rest]; simpl; (split; [by auto | by left]).
  - destruct rest as [| [l | |] rest]; simpl; (split; [by auto | by left]).
  - simpl. split; [by auto | by left].
  - destruct (from_dict data) as [pricing | e]; simpl; [| split; [by auto | by left]].
    unfold deliver. destruct (body pricing) as [[] | e]; simpl;
      (split; [by auto |]); [by left | by left | right; by exists e].
  - simpl. split; [by auto | by left].
  - simpl. split; [by auto | right; by exists e].
  - split; [done | by left].
Qed.

(** A task that is unwinding stays so while the run is going, and the
    run does not reach the end of the stream. *)
Lemma failing_step st c i e rest b :
  run_status st = Running →
  tasks st !! i = Some (Failing e rest b) →
  (run_status (step body st c) = Running ∧
   tasks (step body st c) !! i = Some (Failing e rest b)) ∨
  ((∃ e', run_status (step body st c) = Aborted e') ∧
   (tasks (step body st c) !! i = Some (Failing e rest b) ∨
    tasks (step body st c) !! i = Some Done)).
Proof.
  intros Hst Hi. destruct c as [j |].
  - destruct (decide (j = i)) as [-> | Hne].
    + rewrite (step_failing _ _ _ _ _ Hst Hi). right. simpl. split; [by eexists |].
      right. apply list_lookup_insert_eq. by eapply lookup_lt_Some.
    + unfold step. rewrite Hst.
      destruct (task_step_other st j Hst) as [Hother [Hrun | Hab]];
        rewrite <- (Hother i) in Hi by done; [by left | right; by auto].
  - unfold step, consumer_step. rewrite Hst.
    destruct (Nat.eqb (open_send_channels st) 0); [| by left].
    destruct (head_failure _ _ _ _ _ Hi) as [e' He']. simpl. rewrite He'.
    right. split; [by eexists | by left].
Qed.

Lemma failing_exec sched st i e rest b :
  run_status st = Running →
  tasks st !! i = Some (Failing e rest b) →
  (run_status (exec body sched st) = Running ∧
   tasks (exec body sched st) !! i = Some (Failing e rest b)) ∨
  ((∃ e', run_status (exec body sched st) = Aborted e') ∧
   (tasks (exec body sched st) !! i = Some (Failing e rest b) ∨
    tasks (exec body sched st) !! i = Some Done)).
Proof.
  revert st. induction sched as [| c sched IH]; intros st Hst Hi; [by left |].
  rewrite exec_cons.
  destruct (failing_step st c i e rest b Hst Hi) as [[Hst' Hi'] | [[e' He'] Hi']].
  - by apply IH.
  - right. rewrite (exec_aborted _ _ e') by done. split; [by eexists | done].
Qed.

(** A task that is unwinding with [e] ends the run with [e]. *)
Lemma failing_ends_run st i e rest b :
  run_status st = Running →
  tasks st !! i = Some (Failing e rest b) →
  ends_run_with body i e st.
Proof.
  intros Hst Hi sched. cbv zeta. rewrite Hi.
  destruct (failing_exec sched st i e rest b Hst Hi) as [[Hst' Hi'] | [[e' He'] Hi']].
  - split; [by rewrite Hst' |]. split; [by left |]. intros _. split; [done |].
    intros more. rewrite exec_cons, (step_failing _ _ _ _ _ Hst' Hi').
    by rewrite (exec_aborted _ _ e).
  - split; [by rewrite He' |]. split; [done |]. by rewrite He'.
Qed.

End Failures.

(** ** A run in which nothing raises reaches the end of the stream *)

Section Liveness.
Variable body : Pricing → result bool.

Lemma fmap_Ok_app_inv {A} (l1 l2 : list (result A)) (seq : list A) :
  l1 ++ l2 = Ok <$> seq →
  ∃ seq1 seq2, seq = seq1 ++ seq2 ∧ l1 = Ok <$> seq1 ∧ l2 = Ok <$> seq2.
Proof.
  intros Heq. symmetry in Heq. apply fmap_app_inv in Heq.
  destruct Heq as (seq1 & seq2 & -> & -> & ->). by exists seq1, seq2.
Qed.

(** The inner loop of [query_region] over the first records of a
    page. *)
Lemma page_sent (i : nat) (rest : list fetch) (pre cur : list raw)
    (seq : list Pricing) (st : state) :
  run_status st = Running →
  tasks st !! i = Some (Sending (pre ++ cur) rest) →
  from_dict <$> pre = Ok <$> seq →
  Forall (λ p, is_ok (body p) = true) seq →
  exec body (replicate (length pre) (Task i)) st =
    {| tasks := <[i := Sending cur rest]> (tasks st);
       open_send_channels := open_send_channels st;
       received := received st ++ seq;
       printed := printed st ++ List.filter (accepts body) seq;
       run_status := Running |}.
Proof.
  revert seq st. induction pre as [| data pre IH]; intros seq st Hst Hi Hdec Hok.
  - destruct seq; [| done]. simpl. rewrite !app_nil_r.
    rewrite list_insert_id by done. destruct st; simpl in *. by subst.
  - destruct seq as [| pricing seq]; [done |]. simpl in Hdec.
    injection Hdec as Hdata Hdec. apply Forall_cons in Hok as [Hp Hok].
    destruct (body pricing) as [b | e] eqn:Hbody; [| done].
    simpl. replace (fold_left (step body) (replicate (length pre) (Task i))
                      (step body st (Task i)))
      with (exec body (replicate (length pre) (Task i)) (step body st (Task i)))
      by done.
    assert (step body st (Task i) =
      {| tasks := <[i := Sending (pre ++ cur) rest]> (tasks st);
         open_send_channels := open_send_channels st;
         received := received st ++ [pricing];
         printed := printed st ++ (if b then [pricing] else []);
         run_status := Running |}) as ->.
    { unfold step, task_step, deliver. simpl in Hi. rewrite Hst, Hi, Hdata, Hbody.
      destruct b; simpl; by rewrite ?app_nil_r, ?Hst. }
    rewrite (IH seq); simpl; [| done | | done..].
    + rewrite list_insert_insert_eq, <- !app_assoc. unfold accepts at 2.
      rewrite Hbody. by destruct b.
    + apply list_lookup_insert_eq. by eapply lookup_lt_Some.
Qed.

(** The first step of a task, and its step when it comes back for the
    next page. *)
Lemma step_next_page st i feed :
  run_status st = Running →
  tasks st !! i = Some (Opening feed) ∨ tasks st !! i = Some (Paging feed) →
  head feed ≠ Some Refused →
  step body st (Task i) = next_page i feed st.
Proof.
  intros Hst [Hi | Hi] Hhead; unfold step, task_step; rewrite Hst, Hi; [| done].
  by destruct feed as [| [l | |] rest].
Qed.

(** [query_region] from its start, or from a page on, to its end. *)
Lemma task_runs_to_done (i : nat) (feed : list fetch) (seq : list Pricing)
    (st : state) :
  run_status st = Running →
  tasks st !! i = Some (Opening feed) ∨ tasks st !! i = Some (Paging feed) →
  trace feed = Ok <$> seq →
  Forall (λ p, is_ok (body p) = true) seq →
  exec body (replicate (task_steps feed) (Task i)) st =
    {| tasks := <[i := Done]> (tasks st);
       open_send_channels := pred (open_send_channels st);
       received := received st ++ seq;
       printed := printed st ++ List.filter (accepts body) seq;
       run_status := Running |}.
Proof.
  revert seq st. induction feed as [| [l | |] rest IH]; intros seq st Hst Hi Htr Hok.
  - destruct seq; [| done].
    assert (i < length (tasks st)) as Hlt by (destruct Hi as [Hi | Hi]; by eapply lookup_lt_Some).
    change (task_steps []) with 2. rewrite !app_nil_r. simpl.
    rewrite (step_next_page st i []) by done. simpl.
    unfold step, task_step. simpl. rewrite Hst.
    rewrite list_lookup_insert_eq by done. unfold set_task. simpl.
    by rewrite list_insert_insert_eq, Hst.
  - simpl in Htr. apply fmap_Ok_app_inv in Htr as (seq1 & seq2 & -> & Hl & Hrest).
    apply Forall_app in Hok as [Hok1 Hok2].
    assert (i < length (tasks st)) as Hlt by (destruct Hi as [Hi | Hi]; by eapply lookup_lt_Some).
    change (task_steps (Page l :: rest))
      with (1 + (length l + (1 + task_steps rest))).
    rewrite !replicate_add, !exec_app.
    assert (exec body (replicate 1 (Task i)) st = set_task i (Sending l rest) st) as ->.
    { simpl. by rewrite (step_next_page st i (Page l :: rest)). }
    rewrite (page_sent i rest l [] seq1); simpl;
      [| done | rewrite app_nil_r; by apply list_lookup_insert_eq | done..].
    rewrite list_insert_insert_eq.
    match goal with
    | |- exec _ _ (step _ ?s _) = _ =>
        assert (step body s (Task i) =
          {| tasks := <[i := Paging rest]> (tasks st);
             open_send_channels := open_send_channels st;
             received := received st ++ seq1;
             printed := printed st ++ List.filter (accepts body) seq1;
             run_status := Running |}) as ->
    end.
    { unfold step, task_step. simpl.
      rewrite list_lookup_insert_eq by done. simpl.
      unfold set_task. simpl. by rewrite list_insert_insert_eq. }
    rewrite (IH seq2); simpl; [| done | right; by apply list_lookup_insert_eq | done..].
    by rewrite list_insert_insert_eq, List.filter_app, !app_assoc.
  - by destruct seq.
  - by destruct seq.
Qed.

Lemma sequential_from_closes (feeds : list (list fetch)) (seqs : list (list Pricing))
    (i : nat) (st : state) :
  run_status st = Running →
  (∀ j feed, feeds !! j = Some feed → tasks st !! (i + j) = Some (Opening feed)) →
  Forall (λ t, failure t = None) (tasks st) →
  open_send_channels st = length feeds →
  Forall2 (λ feed seq, trace feed = Ok <$> seq) feeds seqs →
  Forall (Forall (λ p, is_ok (body p) = true)) seqs →
  run_status (exec body (sequential_from i feeds) st) = Closed ∧
  received (exec body (sequential_from i feeds) st) = received st ++ concat seqs ∧
  printed (exec body (sequential_from i feeds) st)
    = printed st ++ List.filter (accepts body) (concat seqs).
Proof.
  intros Hst Htasks Hnf Hopen Htr. revert i st Hst Htasks Hnf Hopen.
  induction Htr as [| feed seq feeds seqs Hfeed _ IH];
    intros i st Hst Htasks Hnf Hopen Hok.
  - simpl. unfold step, consumer_step. rewrite Hst, Hopen. simpl.
    by rewrite (no_failure _ Hnf), !app_nil_r.
  - apply Forall_cons in Hok as [Hok1 Hok]. simpl. rewrite exec_app.
    rewrite (task_runs_to_done i feed seq); [| done | | done..].
    2: { specialize (Htasks 0 feed eq_refl). rewrite Nat.add_0_r in Htasks. by left. }
    destruct (IH (S i)
      {| tasks := <[i := Done]> (tasks st);
         open_send_channels := pred (open_send_channels st);
         received := received st ++ seq;
         printed := printed st ++ List.filter (accepts body) seq;
         run_status := Running |}) as (Hc & Hr & Hp); simpl; [done | | | | done |].
    + intros j feed' Hj. rewrite list_lookup_insert_ne by lia.
      specialize (Htasks (S j) feed' Hj). by rewrite Nat.add_succ_r in Htasks.
    + by apply Forall_insert.
    + rewrite Hopen. simpl. lia.
    + rewrite Hc, Hr, Hp. by rewrite List.filter_app, !app_assoc.
Qed.

(** When no paginator raises, every record decodes and the loop body
    raises on none of them, the sequential schedule carries every record
    through the stream and ends at the end of the stream. *)
Lemma sequential_run_closes (feeds : list (list fetch)) (seqs : list (list Pricing)) :
  Forall2 (λ feed seq, trace feed = Ok <$> seq) feeds seqs →
  Forall (Forall (λ p, is_ok (body p) = true)) seqs →
  run_status (main body feeds (sequential feeds)) = Closed ∧
  received (main body feeds (sequential feeds)) = concat seqs ∧
  printed (main body feeds (sequential feeds))
    = List.filter (accepts body) (concat seqs).
Proof.
  intros Htr Hok. unfold main, sequential. rewrite spawn_eq.
  apply (sequential_from_closes feeds seqs 0); simpl; try done.
  - intros j feed Hj. by rewrite list_lookup_fmap, Hj.
  - apply Forall_fmap, Forall_forall. by intros feed _.
Qed.

End Liveness.

(** The loop body of the per-unit pipeline raises exactly when a derived
    attribute does. *)
Lemma gpu_body_raises (pricing : Pricing) (e : exn) :
  Gpu.body pricing = Raise e ↔
  Gpu.gpu_count pricing = Raise e ∨
  (is_ok (Gpu.gpu_count pricing) = true ∧ Gpu.instance_family pricing = Raise e).
Proof.
  unfold Gpu.body, Gpu.max_price.
  destruct (Gpu.gpu_count pricing) as [n | e1]; simpl.
  - destruct (Gpu.instance_family pricing) as [fam | e2]; simpl.
    + split; [intros H | intros [H | [_ H]]]; discriminate H.
    + split; [intros H; right; split | intros [H | [_ H]]]; congruence.
  - split; [intros H; left | intros [H | [H _]]]; congruence.
Qed.

Lemma gpu_count_of_size (pricing : Pricing) (size : string) :
  Gpu.instance_size pricing = Ok size →
  Gpu.gpu_count pricing =
    if one_of size ["xlarge"; "2xlarge"; "4xlarge"; "8xlarge"; "16xlarge"] then Ok 1%Z
    else if one_of size ["12xlarge"; "24xlarge"] then Ok 4%Z
    else if one_of size ["48xlarge"] then Ok 8%Z
    else Raise (ValueError (instance_type pricing)).
Proof. intros Hsize. unfold Gpu.gpu_count. by rewrite Hsize. Qed.

Lemma gpu_count_unknown_size (pricing : Pricing) (size : string) :
  Gpu.instance_size pricing = Ok size →
  size ∉ ["xlarge"; "2xlarge"; "4xlarge"; "8xlarge"; "16xlarge";
           "12xlarge"; "24xlarge"; "48xlarge"] →
  Gpu.gpu_count pricing = Raise (ValueError (instance_type pricing)).
Proof.
  intros Hsize Hnot. rewrite (gpu_count_of_size _ _ Hsize).
  change ["xlarge"; "2xlarge"; "4xlarge"; "8xlarge"; "16xlarge";
          "12xlarge"; "24xlarge"; "48xlarge"]
    with (["xlarge"; "2xlarge"; "4xlarge"; "8xlarge"; "16xlarge"]
          ++ ["12xlarge"; "24xlarge"] ++ ["48xlarge"]) in Hnot.
  apply not_elem_of_app in Hnot as [H1 Hnot].
  apply not_elem_of_app in Hnot as [H2 H3].
  apply one_of_not_elem_of in H1, H2, H3. by rewrite H1, H2, H3.
Qed.

(** C3: the unit count of a record is read off its size: 1 for xlarge,
    2xlarge, 4xlarge, 8xlarge and 16xlarge, 4 for 12xlarge and 24xlarge,
    8 for 48xlarge.  Any other size raises [ValueError] with the instance
    type; the loop body does not catch it, so the loop of [main] ends
    with that exception at this record. *)
Theorem gpu_count_table (pricing : Pricing) (size : string) :
  Gpu.instance_size pricing = Ok size →
  (size ∈ ["xlarge"; "2xlarge"; "4xlarge"; "8xlarge"; "16xlarge"] →
     Gpu.gpu_count pricing = Ok 1%Z) ∧
  (size ∈ ["12xlarge"; "24xlarge"] → Gpu.gpu_count pricing = Ok 4%Z) ∧
  (size = "48xlarge" → Gpu.gpu_count pricing = Ok 8%Z) ∧
  (size ∉ ["xlarge"; "2xlarge"; "4xlarge"; "8xlarge"; "16xlarge";
            "12xlarge"; "24xlarge"; "48xlarge"] →
     Gpu.gpu_count pricing = Raise (ValueError (instance_type pricing)) ∧
     Gpu.body pricing = Raise (ValueError (instance_type pricing)) ∧
     ∀ rest, consume Gpu.body (pricing :: rest)
             = ([], Some (ValueError (instance_type pricing)))).
Proof.
  intros Hsize. split; [| split; [| split]].
  - intros Hin. rewrite (gpu_count_of_size _ _ Hsize).
    apply one_of_elem_of in Hin. by rewrite Hin.
  - intros Hin. rewrite (gpu_count_of_size _ _ Hsize).
    rewrite !elem_of_cons in Hin.
    destruct Hin as [-> | [-> | Hin]]; [done | done | by apply elem_of_nil in Hin].
  - intros ->. by rewrite (gpu_count_of_size _ _ Hsize).
  - intros Hnot.
    pose proof (gpu_count_unknown_size _ _ Hsize Hnot) as Hcount.
    assert (Gpu.body pricing = Raise (ValueError (instance_type pricing))) as Hbody.
    { apply gpu_body_raises. by left. }
    split; [done |]. split; [done |].
    intros rest. simpl. by rewrite Hbody.
Qed.

Lemma gpu_count_table_witness :
  Gpu.instance_size (Sample.pricing "g5.24xlarge" 0.1) = Ok "24xlarge" ∧
  Gpu.gpu_count (Sample.pricing "g5.24xlarge" 0.1) = Ok 4%Z.
Proof.
  set (pricing := Sample.pricing "g5.24xlarge" 0.1).
  assert (Gpu.instance_size pricing = Ok "24xlarge") as Hsize by done.
  split; [exact Hsize |].
  destruct (gpu_count_table pricing "24xlarge" Hsize) as (_ & H4 & _).
  apply H4. rewrite !elem_of_cons. by right; left.
Defined.

(** The claim fails: a record of an unknown size ends the loop of
    [main], and the record after it, which is within its ceiling, is
    never printed. *)
Lemma unknown_size_ends_the_loop :
  Gpu.gpu_count (Sample.pricing "g5.metal" 0.1) = Raise (ValueError "g5.metal") ∧
  Gpu.body (Sample.pricing "g5.xlarge" 0.1) = Ok true ∧
  consume Gpu.body [Sample.pricing "g5.xlarge" 0.1]
    = ([Sample.pricing "g5.xlarge" 0.1], None) ∧
  consume Gpu.body [Sample.pricing "g5.metal" 0.1; Sample.pricing "g5.xlarge" 0.1]
    = ([], Some (ValueError "g5.metal")).
Proof. by vm_compute. Qed.

(** C4: a record on which the loop body raises (an unknown family or
    size, or no size at all) is taken off the stream and not printed; the
    exception leaves the loop, the run is aborted with it, and whatever
    the schedule nothing is received or printed afterwards. *)
Theorem classification_error_aborts (st : state) (i : nat) (data : raw)
    (cur : list raw) (rest : list fetch) (pricing : Pricing) (e : exn)
    (sched : list pick) :
  run_status st = Running →
  tasks st !! i = Some (Sending (data :: cur) rest) →
  from_dict data = Ok pricing →
  Gpu.body pricing = Raise e →
  (Gpu.gpu_count pricing = Raise e ∨ Gpu.instance_family pricing = Raise e) ∧
  let st' := exec Gpu.body (Task i :: sched) st in
  run_status st' = Aborted e ∧
  received st' = received st ++ [pricing] ∧
  printed st' = printed st.
Proof.
  intros Hst Hi Hdec Hbody. split.
  - apply gpu_body_raises in Hbody as [H | [_ H]]; [by left | by right].
  - destruct (step_body_error Gpu.body st i data cur rest pricing e)
      as (Hab & Hrcv & Hpr); [done.. |].
    cbv zeta. rewrite exec_cons, (exec_aborted _ _ _ e) by done. done.
Qed.

Lemma classification_error_aborts_witness :
  run_status (main Gpu.body Sample.feeds_weird [Task 0]) = Running ∧
  from_dict (Sample.data "X.weird" "0.10") = Ok (Sample.pricing "X.weird" 0.1) ∧
  Gpu.body (Sample.pricing "X.weird" 0.1) = Raise (ValueError "X.weird") ∧
  run_status (exec Gpu.body [Task 0; Task 1; Task 1; Consumer]
                (main Gpu.body Sample.feeds_weird [Task 0]))
    = Aborted (ValueError "X.weird").
Proof.
  assert (run_status (main Gpu.body Sample.feeds_weird [Task 0]) = Running)
    as Hst by (by vm_compute).
  assert (tasks (main Gpu.body Sample.feeds_weird [Task 0]) !! 0
          = Some (Sending [Sample.data "X.weird" "0.10"] [])) as Hi by (by vm_compute).
  assert (from_dict (Sample.data "X.weird" "0.10") = Ok (Sample.pricing "X.weird" 0.1))
    as Hdec by (by vm_compute).
  assert (Gpu.body (Sample.pricing "X.weird" 0.1) = Raise (ValueError "X.weird"))
    as Hbody by (by vm_compute).
  split; [exact Hst |]. split; [exact Hdec |]. split; [exact Hbody |].
  destruct (classification_error_aborts _ _ _ _ _ _ _ [Task 1; Task 1; Consumer]
              Hst Hi Hdec Hbody) as (_ & Hab & _).
  exact Hab.
Defined.

(** The claim fails: the record of size "weird" aborts the run; the
    record of the other region is within its ceiling and is never
    received, whatever the schedule does next. *)
Lemma unknown_size_aborts_the_run :
  Gpu.body (Sample.pricing "g5.xlarge" 0.1) = Ok true ∧
  ∀ sched,
    run_status (main Gpu.body Sample.feeds_weird (Task 0 :: Task 0 :: sched))
      = Aborted (ValueError "X.weird") ∧
    received (main Gpu.body Sample.feeds_weird (Task 0 :: Task 0 :: sched))
      = [Sample.pricing "X.weird" 0.1] ∧
    printed (main Gpu.body Sample.feeds_weird (Task 0 :: Task 0 :: sched)) = [].
Proof.
  split; [by vm_compute |]. intros sched. unfold main.
  rewrite 2!exec_cons.
  rewrite (exec_aborted _ _ _ (ValueError "X.weird")) by (by vm_compute).
  by vm_compute.
Qed.

(** C5: when the paginator of one region raises, the exception leaves
    [query_region]: the task closes its send stream and unwinds, and
    while it does the run goes on: a record that another region sends is
    received and, if accepted, printed.  The run does not reach the end
    of the stream any more.  When the failing task has ended the task
    group is cancelled: the run ends with that error and nothing is
    received or printed afterwards, so what the other regions had not
    delivered by then is lost.  The scripts keep no list of warnings. *)
Theorem fetch_error_aborts (body : Pricing → result bool) (st : state)
    (i : nat) (rest : list fetch) :
  run_status st = Running →
  tasks st !! i = Some (Opening (Fault :: rest)) ∨
  tasks st !! i = Some (Paging (Fault :: rest)) →
  let st' := step body st (Task i) in
  run_status st' = Running ∧
  tasks st' !! i = Some (Failing FetchError (Fault :: rest) false) ∧
  (∀ j, j ≠ i → tasks st' !! j = tasks st !! j) ∧
  received st' = received st ∧
  printed st' = printed st ∧
  (∀ j data cur rest' pricing b,
     tasks st' !! j = Some (Sending (data :: cur) rest') →
     from_dict data = Ok pricing →
     body pricing = Ok b →
     run_status (step body st' (Task j)) = Running ∧
     received (step body st' (Task j)) = received st' ++ [pricing] ∧
     printed (step body st' (Task j)) = printed st' ++ (if b then [pricing] else [])) ∧
  ends_run_with body i FetchError st'.
Proof.
  intros Hst Hi. cbv zeta. rewrite (step_fault _ _ _ _ Hst Hi).
  assert (i < length (tasks st)) as Hlt
    by (destruct Hi as [Hi | Hi]; by eapply lookup_lt_Some).
  assert (tasks (close_clone i (Failing FetchError (Fault :: rest) false) st) !! i
          = Some (Failing FetchError (Fault :: rest) false)) as Hi'
    by (by apply list_lookup_insert_eq).
  split; [done |]. split; [done |]. split.
  { intros j Hne. simpl. by rewrite list_lookup_insert_ne. }
  split; [done |]. split; [done |]. split.
  - intros j data cur rest' pricing b Hj Hdec Hb.
    by apply (step_send body _ j data cur rest' pricing b).
  - by eapply failing_ends_run.
Qed.

Lemma fetch_error_aborts_witness :
  run_status (main Cpu.body Sample.feeds_fast_fault [Task 1]) = Running ∧
  printed (exec Cpu.body [Task 1]
             (step Cpu.body (main Cpu.body Sample.feeds_fast_fault [Task 1]) (Task 0)))
    = [Sample.pricing "c8g.48xlarge" 0.9] ∧
  run_status (exec Cpu.body [Task 0]
                (exec Cpu.body [Task 1]
                   (step Cpu.body (main Cpu.body Sample.feeds_fast_fault [Task 1]) (Task 0))))
    = Aborted FetchError.
Proof.
  assert (run_status (main Cpu.body Sample.feeds_fast_fault [Task 1]) = Running)
    as Hst by (by vm_compute).
  assert (tasks (main Cpu.body Sample.feeds_fast_fault [Task 1]) !! 0
          = Some (Opening [Fault])) as Hi by (by vm_compute).
  split; [exact Hst |]. split; [by vm_compute |].
  destruct (fetch_error_aborts Cpu.body _ 0 [] Hst (or_introl Hi))
    as (_ & _ & _ & _ & _ & _ & Hends).
  destruct (Hends [Task 1]) as (_ & _ & Hrun).
  destruct Hrun as [_ Hend]; [by vm_compute |].
  destruct (Hend []) as (Hab & _).
  exact Hab.
Defined.

(** The claim fails: the first region fails on its second page and ends
    before the second region, whose record is within the ceiling, has
    got its page; that record is never received, whatever the schedule
    does next. *)
Lemma failing_region_aborts_the_others :
  Cpu.body (Sample.pricing "c8g.metal-48xl" 1.0) = Ok true ∧
  trace [Page [Sample.data "c8g.metal-48xl" "1.00"]]
    = [Ok (Sample.pricing "c8g.metal-48xl" 1.0)] ∧
  ∀ sched,
    run_status (main Cpu.body Sample.feeds_fault
                  (Task 0 :: Task 0 :: Task 0 :: Task 0 :: Task 0 :: sched))
      = Aborted FetchError ∧
    received (main Cpu.body Sample.feeds_fault
                (Task 0 :: Task 0 :: Task 0 :: Task 0 :: Task 0 :: sched))
      = [Sample.pricing "c8g.48xlarge" 0.9] ∧
    printed (main Cpu.body Sample.feeds_fault
               (Task 0 :: Task 0 :: Task 0 :: Task 0 :: Task 0 :: sched))
      = [Sample.pricing "c8g.48xlarge" 0.9].
Proof.
  split; [by vm_compute |]. split; [by vm_compute |].
  intros sched. unfold main. rewrite 5!exec_cons.
  rewrite (exec_aborted _ _ _ FetchError) by (by vm_compute).
  by vm_compute.
Qed.

(** Runs with a failure.  A region that fails at once while the other
    is slow: the record the other region delivers while the failing task
    is unwinding is printed, and the run is aborted when that task ends.
    A single region that fails: the consumer can see the end of the
    stream, and the run still ends with the error.  A region whose client
    cannot be created: its clone stays open, so the consumer does not see
    the end of the stream although the other region has left; the run is
    aborted when the task ends. *)
Example runs_with_a_failure :
  printed (main Cpu.body Sample.feeds_fast_fault [Task 0; Task 1; Task 1; Task 0])
    = [Sample.pricing "c8g.48xlarge" 0.9] ∧
  run_status (main Cpu.body Sample.feeds_fast_fault [Task 0; Task 1; Task 1; Task 0])
    = Aborted FetchError ∧
  run_status (main Cpu.body [[Fault]] [Task 0; Consumer]) = Aborted FetchError ∧
  run_status (main Cpu.body Sample.feeds_refused
                [Task 0; Task 1; Task 1; Task 1; Task 1; Consumer]) = Running ∧
  open_send_channels (main Cpu.body Sample.feeds_refused
                        [Task 0; Task 1; Task 1; Task 1; Task 1; Consumer]) = 1 ∧
  tasks (main Cpu.body Sample.feeds_refused
           [Task 0; Task 1; Task 1; Task 1; Task 1; Consumer])
    = [Failing FetchError [Refused] true; Leaving] ∧
  run_status (main Cpu.body Sample.feeds_refused
                [Task 0; Task 1; Task 1; Task 1; Task 1; Consumer; Task 0])
    = Aborted FetchError.
Proof. by vm_compute. Qed.




(** ** Decoding errors *)

(** C7: [from_dict] passes the "SpotPrice" string to [float].  The sign
    is not checked: a string with a minus sign gives a negative spot
    price.  A string that is no number raises [ValueError], which nothing
    catches: the exception leaves [query_region], whose task closes its
    send stream and unwinds; the run does not reach the end of the stream
    any more, and when the task has ended the run is aborted with that
    error.  (For a "SpotPrice" of ASCII text.) *)
Theorem from_dict_spot_price (data : raw) (it zone price : string) :
  data !! "InstanceType" = Some it →
  data !! "AvailabilityZoneId" = Some zone →
  data !! "SpotPrice" = Some price →
  PyFloat.is_ascii price = true →
  from_dict data =
    match PyFloat.float_of_string price with
    | Some f => Ok {| instance_type := it; zone_id := zone; spot_price := f |}
    | None => Raise (ValueError price)
    end ∧
  (PyFloat.float_of_string price = None →
   ∀ body st i cur rest,
     run_status st = Running →
     tasks st !! i = Some (Sending (data :: cur) rest) →
     let st' := step body st (Task i) in
     run_status st' = Running ∧
     tasks st' !! i
       = Some (Failing (ValueError price) (Page (data :: cur) :: rest) false) ∧
     received st' = received st ∧
     printed st' = printed st ∧
     ends_run_with body i (ValueError price) st').
Proof.
  intros Hit Hzone Hprice _.
  pose proof (from_dict_fields data it zone price Hit Hzone Hprice) as Hdec.
  split; [done |].
  intros Hnone body st i cur rest Hst Hi. rewrite Hnone in Hdec. cbv zeta.
  rewrite (step_decode_error _ _ _ _ _ _ _ Hst Hi Hdec).
  assert (tasks (close_clone i (Failing (ValueError price) (Page (data :: cur) :: rest) false) st)
            !! i
          = Some (Failing (ValueError price) (Page (data :: cur) :: rest) false)) as Hi'.
  { apply list_lookup_insert_eq. by eapply lookup_lt_Some. }
  split; [done |]. split; [done |]. split; [done |]. split; [done |].
  by eapply failing_ends_run.
Qed.

Lemma from_dict_spot_price_witness :
  Sample.data "c8g.48xlarge" "0.90" !! "SpotPrice" = Some "0.90" ∧
  PyFloat.is_ascii "0.90" = true ∧
  from_dict (Sample.data "c8g.48xlarge" "0.90")
    = Ok (Sample.pricing "c8g.48xlarge" 0.9).
Proof.
  assert (Sample.data "c8g.48xlarge" "0.90" !! "InstanceType" = Some "c8g.48xlarge")
    as Hit by (by vm_compute).
  assert (Sample.data "c8g.48xlarge" "0.90" !! "AvailabilityZoneId" = Some "use1-az1")
    as Hzone by (by vm_compute).
  assert (Sample.data "c8g.48xlarge" "0.90" !! "SpotPrice" = Some "0.90")
    as Hprice by (by vm_compute).
  assert (PyFloat.is_ascii "0.90" = true) as Hascii by (by vm_compute).
  split; [exact Hprice |]. split; [exact Hascii |].
  destruct (from_dict_spot_price _ _ _ _ Hit Hzone Hprice Hascii) as (Hdec & _).
  rewrite Hdec. by vm_compute.
Defined.

(** The claim fails twice: a negative price is taken as it is (and
    printed), and a price that is no number aborts the run: the record
    after it in the page, which is within the ceiling, is never
    received. *)
Lemma spot_price_negative_or_fatal :
  from_dict (Sample.data "c8g.48xlarge" "-0.05")
    = Ok (Sample.pricing "c8g.48xlarge" (-0.05)) ∧
  (spot_price (Sample.pricing "c8g.48xlarge" (-0.05)) <? 0)%float = true ∧
  Cpu.body (Sample.pricing "c8g.48xlarge" (-0.05)) = Ok true ∧
  printed (main Cpu.body [[Page [Sample.data "c8g.48xlarge" "-0.05"]]] [Task 0; Task 0])
    = [Sample.pricing "c8g.48xlarge" (-0.05)] ∧
  from_dict (Sample.data "c8g.48xlarge" "n/a") = Raise (ValueError "n/a") ∧
  ∀ sched,
    run_status (main Cpu.body Sample.feeds_unparsable
                  (Task 0 :: Task 0 :: Task 0 :: sched))
      = Aborted (ValueError "n/a") ∧
    received (main Cpu.body Sample.feeds_unparsable
                (Task 0 :: Task 0 :: Task 0 :: sched)) = [] ∧
    printed (main Cpu.body Sample.feeds_unparsable
               (Task 0 :: Task 0 :: Task 0 :: sched)) = [].
Proof.
  split; [by vm_compute |]. split; [by vm_compute |].
  split; [by vm_compute |]. split; [by vm_compute |]. split; [by vm_compute |].
  intros sched. unfold main. rewrite 3!exec_cons.
  rewrite (exec_aborted _ _ _ (ValueError "n/a")) by (by vm_compute).
  by vm_compute.
Qed.

Lemma from_dict_first_missing (data : raw) (key : string) :
  first_missing data = Some key → from_dict data = Raise (KeyError key).
Proof.
  unfold first_missing, required_fields, from_dict, dict_get. simpl.
  destruct (data !! "InstanceType"); [| by intros [= <-]].
  destruct (data !! "AvailabilityZoneId"); [| by intros [= <-]].
  destruct (data !! "SpotPrice"); [done | by intros [= <-]].
Qed.

(** C8: when a raw record lacks a required field, [from_dict] raises
    [KeyError] for the first one missing, in the order InstanceType,
    AvailabilityZoneId, SpotPrice.  The records of the page before it
    are sent, received and, if accepted, printed.  Nothing catches the
    error: it leaves [query_region], whose task closes its send stream,
    unwinds and sends nothing more, so the records after it are never
    decoded; the run does not reach the end of the stream any more, and
    when the task has ended the run is aborted with that error. *)
Theorem missing_field_aborts (data : raw) (key : string) :
  first_missing data = Some key →
  from_dict data = Raise (KeyError key) ∧
  ∀ body st i pre post rest seq,
    run_status st = Running →
    tasks st !! i = Some (Sending (pre ++ data :: post) rest) →
    from_dict <$> pre = Ok <$> seq →
    Forall (λ p, is_ok (body p) = true) seq →
    let st0 := exec body (replicate (length pre) (Task i)) st in
    let st' := step body st0 (Task i) in
    (run_status st0 = Running ∧
     received st0 = received st ++ seq ∧
     printed st0 = printed st ++ List.filter (accepts body) seq) ∧
    (run_status st' = Running ∧
     tasks st' !! i
       = Some (Failing (KeyError key) (Page (data :: post) :: rest) false) ∧
     received st' = received st0 ∧
     printed st' = printed st0) ∧
    ends_run_with body i (KeyError key) st'.
Proof.
  intros Hmiss. pose proof (from_dict_first_missing _ _ Hmiss) as Hdec.
  split; [done |].
  intros body st i pre post rest seq Hst Hi Hpre Hok. cbv zeta.
  pose proof (lookup_lt_Some _ _ _ Hi) as Hlt.
  rewrite (page_sent body i rest pre (data :: post) seq st Hst Hi Hpre Hok).
  split; [done |].
  match goal with
  | |- context [step body ?s (Task i)] =>
      assert (tasks s !! i = Some (Sending (data :: post) rest)) as Hi0
        by (by apply list_lookup_insert_eq);
      rewrite (step_decode_error body s i data post rest (KeyError key) eq_refl Hi0 Hdec)
  end.
  simpl. rewrite list_insert_insert_eq.
  split.
  - split; [done |]. split; [by apply list_lookup_insert_eq | done].
  - eapply failing_ends_run; [done |]. simpl.
    rewrite list_insert_insert_eq. by apply list_lookup_insert_eq.
Qed.

Lemma missing_field_aborts_witness :
  first_missing (delete "AvailabilityZoneId" (Sample.data "c8g.48xlarge" "0.95"))
    = Some "AvailabilityZoneId" ∧
  from_dict (delete "AvailabilityZoneId" (Sample.data "c8g.48xlarge" "0.95"))
    = Raise (KeyError "AvailabilityZoneId") ∧
  received (exec Cpu.body [Task 0]
              (main Cpu.body (Sample.feeds_missing "AvailabilityZoneId") [Task 0]))
    = [Sample.pricing "c8g.48xlarge" 0.9].
Proof.
  assert (first_missing (delete "AvailabilityZoneId" (Sample.data "c8g.48xlarge" "0.95"))
          = Some "AvailabilityZoneId") as Hmiss by (by vm_compute).
  split; [exact Hmiss |].
  destruct (missing_field_aborts _ _ Hmiss) as (Hdec & Hrun).
  split; [exact Hdec |].
  destruct (Hrun Cpu.body
              (main Cpu.body (Sample.feeds_missing "AvailabilityZoneId") [Task 0]) 0
              [Sample.data "c8g.48xlarge" "0.90"]
              [Sample.data "c8g.metal-48xl" "1.00"] []
              [Sample.pricing "c8g.48xlarge" 0.9])
    as ((_ & Hrcv & _) & _); [by vm_compute.. | |].
  - repeat constructor.
  - exact Hrcv.
Defined.

(** The claim fails: for each of the three fields, a page whose second
    record lacks it aborts the run: the record before it is received and
    printed, and the complete record after it in the same page, which is
    within the ceiling, is never received, whatever the schedule does
    next. *)
Lemma missing_field_aborts_the_run :
  Cpu.body (Sample.pricing "c8g.metal-48xl" 1.0) = Ok true ∧
  from_dict (Sample.data "c8g.metal-48xl" "1.00")
    = Ok (Sample.pricing "c8g.metal-48xl" 1.0) ∧
  ∀ sched,
    Forall (λ key,
      run_status (main Cpu.body (Sample.feeds_missing key)
                    (Task 0 :: Task 0 :: Task 0 :: Task 0 :: sched))
        = Aborted (KeyError key) ∧
      received (main Cpu.body (Sample.feeds_missing key)
                  (Task 0 :: Task 0 :: Task 0 :: Task 0 :: sched))
        = [Sample.pricing "c8g.48xlarge" 0.9] ∧
      printed (main Cpu.body (Sample.feeds_missing key)
                 (Task 0 :: Task 0 :: Task 0 :: Task 0 :: sched))
        = [Sample.pricing "c8g.48xlarge" 0.9])
      ["InstanceType"; "AvailabilityZoneId"; "SpotPrice"].
Proof.
  split; [by vm_compute |]. split; [by vm_compute |].
  intros sched.
  repeat (apply List.Forall_cons; [| ]); try apply List.Forall_nil;
    unfold main; rewrite 4!exec_cons;
    match goal with
    | |- run_status (exec _ _ ?st) = Aborted ?e ∧ _ =>
        rewrite (exec_aborted _ _ st e) by (by vm_compute)
    end; by vm_compute.
Qed.

(** ** The order of arrival *)

Section Order.
Variable body : Pricing → result bool.

Lemma consume_no_error stream :
  (consume body stream).2 = None →
  Forall (λ p, is_ok (body p) = true) stream.
Proof.
  induction stream as [| p stream IH]; simpl; [by constructor |].
  destruct (body p) as [b | e] eqn:Hb; [| done].
  destruct (consume body stream) as [out err]. simpl in *.
  intros ->. constructor; [by rewrite Hb | by apply IH].
Qed.

Lemma consume_Permutation (s1 s2 : list Pricing) :
  s1 ≡ₚ s2 →
  Forall (λ p, is_ok (body p) = true) s1 →
  (consume body s1).1 ≡ₚ (consume body s2).1.
Proof.
  intros Hperm Hok1.
  assert (Forall (λ p, is_ok (body p) = true) s2) as Hok2 by (by rewrite <- Hperm).
  rewrite !consume_filter by done. simpl.
  clear Hok1 Hok2. induction Hperm as [| x l l' _ IH | x y l | l l' l'' _ IH1 _ IH2]; simpl.
  - done.
  - destruct (accepts body x); by rewrite ?IH.
  - destruct (accepts body x), (accepts body y); try done. apply perm_swap.
  - by rewrite IH1.
Qed.

Lemma consume_Interleaving (seqs : list (list Pricing)) (s1 s2 : list Pricing) :
  Interleaving seqs s1 → Interleaving seqs s2 →
  Forall (Forall (λ p, is_ok (body p) = true)) seqs →
  (consume body s1).1 ≡ₚ (consume body s2).1.
Proof.
  intros H1 H2 Hok. apply Interleaving_Permutation in H1, H2.
  apply consume_Permutation; [by rewrite H1, H2 |].
  rewrite H1. by apply Forall_concat.
Qed.

(** Two runs over the same feeds that both reach the end of the stream
    print the same records, up to their order. *)
Lemma closed_runs_print_the_same (feeds : list (list fetch)) (sched1 sched2 : list pick) :
  run_status (main body feeds sched1) = Closed →
  run_status (main body feeds sched2) = Closed →
  printed (main body feeds sched1) ≡ₚ printed (main body feeds sched2).
Proof.
  intros Hc1 Hc2.
  destruct (run_inv_main body feeds sched1) as [Ho1 Hp1 Hr1 Hcl1 Hs1].
  destruct (run_inv_main body feeds sched2) as [Ho2 Hp2 Hr2 Hcl2 Hs2].
  assert (∀ e, run_status (main body feeds sched1) ≠ Aborted e) as Hn1
    by (intros e; by rewrite Hc1).
  assert (∀ e, run_status (main body feeds sched2) ≠ Aborted e) as Hn2
    by (intros e; by rewrite Hc2).
  destruct (stream_inv_done feeds _ _ (Hs1 Hn1) (Hcl1 Hc1)) as (seqs1 & Hf1 & HI1).
  destruct (stream_inv_done feeds _ _ (Hs2 Hn2) (Hcl2 Hc2)) as (seqs2 & Hf2 & HI2).
  assert (seqs1 = seqs2) as <-.
  { clear -Hf1 Hf2. revert seqs2 Hf2.
    induction Hf1 as [| feed seq feeds seqs Heq _ IH]; intros seqs2 Hf2;
      inversion Hf2 as [| ? seq' ? seqs' Heq' Hf2']; subst; [done |].
    f_equal; [| by apply IH].
    rewrite Heq in Heq'. by apply (inj (fmap Ok)) in Heq'. }
  rewrite Hp1, Hp2. apply consume_Permutation.
  - apply Interleaving_Permutation in HI1, HI2. by rewrite HI1, HI2.
  - apply consume_no_error. by apply Hr1.
Qed.

End Order.

(** C9: the multiset of printed records does not depend on how the
    regions' sequences are interleaved, in the flat pipeline always and
    in the per-unit pipeline when the loop body raises on none of the
    records; and two runs over the same regions that both reach the end
    of the stream print the same multiset of records. *)
Theorem accepted_order_insensitive (seqs : list (list Pricing))
    (s1 s2 : list Pricing) :
  Interleaving seqs s1 →
  Interleaving seqs s2 →
  (consume Cpu.body s1).1 ≡ₚ (consume Cpu.body s2).1 ∧
  (Forall (Forall (λ p, is_ok (Gpu.body p) = true)) seqs →
     (consume Gpu.body s1).1 ≡ₚ (consume Gpu.body s2).1) ∧
  ∀ body feeds sched1 sched2,
    run_status (main body feeds sched1) = Closed →
    run_status (main body feeds sched2) = Closed →
    printed (main body feeds sched1) ≡ₚ printed (main body feeds sched2).
Proof.
  intros H1 H2. split; [| split].
  - apply (consume_Interleaving _ seqs); [done.. |].
    apply Forall_forall. intros l _. apply Forall_forall. by intros p _.
  - intros Hok. by apply (consume_Interleaving _ seqs).
  - intros body feeds sched1 sched2. apply closed_runs_print_the_same.
Qed.

Lemma sample_interleaving {A} (a b : A) :
  Interleaving [[a]; [b]] [a; b] ∧ Interleaving [[a]; [b]] [b; a].
Proof.
  split.
  - apply (Interleaving_cons 0 a []); [done |].
    apply (Interleaving_cons 1 b []); [done |].
    apply Interleaving_nil. by repeat constructor.
  - apply (Interleaving_cons 1 b []); [done |].
    apply (Interleaving_cons 0 a []); [done |].
    apply Interleaving_nil. by repeat constructor.
Qed.

Lemma accepted_order_insensitive_witness :
  (consume Gpu.body [Sample.pricing "g5.xlarge" 0.1; Sample.pricing "g6e.xlarge" 0.9]).1
  ≡ₚ (consume Gpu.body [Sample.pricing "g6e.xlarge" 0.9; Sample.pricing "g5.xlarge" 0.1]).1.
Proof.
  destruct (sample_interleaving (Sample.pricing "g5.xlarge" 0.1)
              (Sample.pricing "g6e.xlarge" 0.9)) as [H1 H2].
  destruct (accepted_order_insensitive _ _ _ H1 H2) as (_ & Hgpu & _).
  apply Hgpu. repeat constructor.
Defined.

(** The claim fails in the per-unit pipeline: the same two sequences,
    merged in two orders, give different printed records, because the
    record of unknown size ends the loop. *)
Lemma accepted_depends_on_the_order :
  Interleaving [[Sample.pricing "g5.metal" 0.1]; [Sample.pricing "g5.xlarge" 0.1]]
    [Sample.pricing "g5.metal" 0.1; Sample.pricing "g5.xlarge" 0.1] ∧
  Interleaving [[Sample.pricing "g5.metal" 0.1]; [Sample.pricing "g5.xlarge" 0.1]]
    [Sample.pricing "g5.xlarge" 0.1; Sample.pricing "g5.metal" 0.1] ∧
  (consume Gpu.body
     [Sample.pricing "g5.metal" 0.1; Sample.pricing "g5.xlarge" 0.1]).1 = [] ∧
  (consume Gpu.body
     [Sample.pricing "g5.xlarge" 0.1; Sample.pricing "g5.metal" 0.1]).1
    = [Sample.pricing "g5.xlarge" 0.1] ∧
  ¬ ((consume Gpu.body
        [Sample.pricing "g5.metal" 0.1; Sample.pricing "g5.xlarge" 0.1]).1
     ≡ₚ (consume Gpu.body
           [Sample.pricing "g5.xlarge" 0.1; Sample.pricing "g5.metal" 0.1]).1).
Proof.
  destruct (sample_interleaving (Sample.pricing "g5.metal" 0.1)
              (Sample.pricing "g5.xlarge" 0.1)) as [H1 H2].
  assert ((consume Gpu.body
             [Sample.pricing "g5.metal" 0.1; Sample.pricing "g5.xlarge" 0.1]).1 = [])
    as Hbad by (by vm_compute).
  assert ((consume Gpu.body
             [Sample.pricing "g5.xlarge" 0.1; Sample.pricing "g5.metal" 0.1]).1
          = [Sample.pricing "g5.xlarge" 0.1]) as Hgood by (by vm_compute).
  repeat split; try done.
  rewrite Hbad, Hgood. intros Hperm. by apply Permutation_nil_cons in Hperm.
Qed.

(** * Further properties of the scripts *)

(** ** The order of binary64 numbers *)

Ltac SF_order :=
  intros;
  repeat match goal with
  | H : context [(?a ?= ?b)%Z] |- _ => destruct (Z.compare_spec a b)
  | |- context [(?a ?= ?b)%Z] => destruct (Z.compare_spec a b)
  | H : context [Pos.compare_cont Eq ?a ?b] |- _ =>
      change (Pos.compare_cont Eq a b) with (Pos.compare a b) in *;
      destruct (Pos.compare_spec a b)
  | |- context [Pos.compare_cont Eq ?a ?b] =>
      change (Pos.compare_cont Eq a b) with (Pos.compare a b) in *;
      destruct (Pos.compare_spec a b)
  end; simpl in *; try congruence; try lia.

Lemma SFleb_trans (x y z : spec_float) :
  SFleb x y = true → SFleb y z = true → SFleb x z = true.
Proof.
  unfold SFleb, SFcompare.
  destruct x as [[]|[]| |[] mx ex], y as [[]|[]| |[] my ey], z as [[]|[]| |[] mz ez];
    simpl; try congruence; SF_order.
Qed.

Lemma SFltb_not_leb (x y : spec_float) :
  SFltb x y = true → SFleb y x = false.
Proof.
  unfold SFltb, SFleb, SFcompare.
  destruct x as [[]|[]| |[] mx ex], y as [[]|[]| |[] my ey];
    simpl; try congruence; SF_order.
Qed.

Lemma float_leb_trans (x y z : PrimFloat.float) :
  (x <=? y)%float = true → (y <=? z)%float = true → (x <=? z)%float = true.
Proof. rewrite !FloatAxioms.leb_spec. apply SFleb_trans. Qed.

Lemma float_ltb_not_leb (x y : PrimFloat.float) :
  (x <? y)%float = true → (y <=? x)%float = false.
Proof. rewrite FloatAxioms.ltb_spec, FloatAxioms.leb_spec. apply SFltb_not_leb. Qed.

Lemma float_leb_nan (x y : PrimFloat.float) :
  is_nan x = true → (x <=? y)%float = false.
Proof.
  intros Hnan. rewrite FloatAxioms.leb_spec. unfold Prim2SF at 1. by rewrite Hnan.
Qed.

(** ** Prices and ceilings *)

Lemma gpu_count_values (pricing : Pricing) (n : Z) :
  Gpu.gpu_count pricing = Ok n → n = 1%Z ∨ n = 4%Z ∨ n = 8%Z.
Proof.
  unfold Gpu.gpu_count. destruct (Gpu.instance_size pricing) as [size | e]; [| done].
  cbn [mbind result_bind Py.bind].
  repeat match goal with
  | |- context [if ?b then _ else _] => destruct b
  end; intros [= <-]; auto.
Qed.

Lemma gpu_max_price_instance_type (p q : Pricing) :
  instance_type q = instance_type p → Gpu.max_price q = Gpu.max_price p.
Proof.
  intros Heq.
  unfold Gpu.max_price, Gpu.gpu_count, Gpu.instance_family, Gpu.instance_size.
  by rewrite Heq.
Qed.

Lemma gpu_body_max_price (pricing : Pricing) (b : bool) :
  Gpu.body pricing = Ok b ↔
  ∃ ceiling, Gpu.max_price pricing = Ok ceiling ∧
             b = (spot_price pricing <=? ceiling)%float.
Proof.
  unfold Gpu.body. destruct (Gpu.max_price pricing) as [c | e]; simpl.
  - split; [intros [= <-]; by exists c | by intros (c' & [= <-] & ->)].
  - split; [done | by intros (c' & ? & _)].
Qed.

Lemma gpu_max_price_of (pricing : Pricing) (n : Z) (family : Gpu.InstanceFamily) :
  Gpu.gpu_count pricing = Ok n →
  Gpu.instance_family pricing = Ok family →
  Gpu.max_price pricing =
    Ok match family with
       | Gpu.G5 => (float_of_int n * 0.49 / 2.35)%float
       | Gpu.G6E => (float_of_int n * 0.49)%float
       end.
Proof.
  intros Hn Hfam. unfold Gpu.max_price. rewrite Hn.
  cbn [mbind result_bind Py.bind]. rewrite Hfam.
  cbn [mbind result_bind Py.bind]. by destruct family.
Qed.

(** X1: in both pipelines acceptance goes down with the price: when a
    record is printed, a record of the same instance type whose price is
    not higher is printed too. *)
Theorem cheaper_is_accepted (p q : Pricing) :
  instance_type q = instance_type p →
  (spot_price q <=? spot_price p)%float = true →
  (Cpu.body p = Ok true → Cpu.body q = Ok true) ∧
  (Gpu.body p = Ok true → Gpu.body q = Ok true).
Proof.
  intros Htype Hle. split.
  - unfold Cpu.body. intros [= Hp]. f_equal. by eapply float_leb_trans.
  - intros Hp. apply gpu_body_max_price in Hp as (c & Hmax & Hp).
    apply gpu_body_max_price. exists c.
    rewrite (gpu_max_price_instance_type p q Htype). split; [done |].
    symmetry. eapply float_leb_trans; [exact Hle | by symmetry].
Qed.

Lemma cheaper_is_accepted_witness :
  instance_type (Sample.pricing "g5.xlarge" 0.1) = instance_type (Sample.pricing "g5.xlarge" 0.2) ∧
  (spot_price (Sample.pricing "g5.xlarge" 0.1) <=? spot_price (Sample.pricing "g5.xlarge" 0.2))%float = true ∧
  Gpu.body (Sample.pricing "g5.xlarge" 0.1) = Ok true.
Proof.
  assert (instance_type (Sample.pricing "g5.xlarge" 0.1)
          = instance_type (Sample.pricing "g5.xlarge" 0.2)) as Htype by done.
  assert ((spot_price (Sample.pricing "g5.xlarge" 0.1)
           <=? spot_price (Sample.pricing "g5.xlarge" 0.2))%float = true)
    as Hle by (by vm_compute).
  split; [exact Htype |]. split; [exact Hle |].
  destruct (cheaper_is_accepted _ _ Htype Hle) as [_ Hgpu].
  apply Hgpu. by vm_compute.
Defined.

(** X2: a price that is not a number is never printed: the comparison
    with the ceiling is false in both pipelines, so a record whose
    "SpotPrice" is "nan" is decoded and then dropped without an error. *)
Theorem nan_price_never_printed (pricing : Pricing) :
  is_nan (spot_price pricing) = true →
  Cpu.body pricing = Ok false ∧
  Gpu.body pricing ≠ Ok true ∧
  ∀ it zone,
    ∃ p, from_dict (SpotPriceTypeDef it zone "nan") = Ok p ∧
         is_nan (spot_price p) = true.
Proof.
  intros Hnan. split; [| split].
  - unfold Cpu.body. by rewrite float_leb_nan.
  - intros Hbody. apply gpu_body_max_price in Hbody as (c & _ & Hc).
    by rewrite float_leb_nan in Hc.
  - intros it zone. rewrite from_dict_SpotPriceTypeDef.
    eexists. split; [by vm_compute | by vm_compute].
Qed.

Lemma nan_price_never_printed_witness :
  is_nan (spot_price (Sample.pricing "g5.xlarge" nan)) = true ∧
  Cpu.body (Sample.pricing "g5.xlarge" nan) = Ok false.
Proof.
  assert (is_nan (spot_price (Sample.pricing "g5.xlarge" nan)) = true)
    as Hnan by (by vm_compute).
  split; [exact Hnan |].
  destruct (nan_price_never_printed _ Hnan) as (Hcpu & _).
  exact Hcpu.
Defined.

(** X3: the ceilings of the per-unit pipeline lie between 0.49 divided
    by 2.35 (one unit, G5) and eight times 0.49 (eight units, G6E): no
    record priced above the latter is ever printed, and every record
    priced at most the former on which the loop body does not raise is
    printed. *)
Theorem gpu_ceiling_bounds (pricing : Pricing) (ceiling : PrimFloat.float) :
  Gpu.max_price pricing = Ok ceiling →
  (0.49 / 2.35 <=? ceiling)%float = true ∧
  (ceiling <=? 8 * 0.49)%float = true ∧
  ((8 * 0.49 <? spot_price pricing)%float = true → Gpu.body pricing = Ok false) ∧
  ((spot_price pricing <=? 0.49 / 2.35)%float = true → Gpu.body pricing = Ok true).
Proof.
  intros Hmax.
  assert ((0.49 / 2.35 <=? ceiling)%float = true ∧ (ceiling <=? 8 * 0.49)%float = true)
    as [Hlo Hhi].
  { unfold Gpu.max_price in Hmax.
    destruct (Gpu.gpu_count pricing) as [n | e] eqn:Hn; [| done].
    cbn [mbind result_bind Py.bind] in Hmax.
    destruct (Gpu.instance_family pricing) as [fam | e]; [| done].
    injection Hmax as <-.
    destruct (gpu_count_values _ _ Hn) as [-> | [-> | ->]], fam; by vm_compute. }
  split; [done |]. split; [done |]. split.
  - intros Hgt. apply gpu_body_max_price. exists ceiling. split; [done |].
    symmetry. destruct (spot_price pricing <=? ceiling)%float eqn:Hle; [| done].
    pose proof (float_leb_trans _ _ _ Hle Hhi) as Hle'.
    by rewrite (float_ltb_not_leb _ _ Hgt) in Hle'.
  - intros Hle. apply gpu_body_max_price. exists ceiling. split; [done |].
    symmetry. by eapply float_leb_trans.
Qed.

Lemma gpu_ceiling_bounds_witness :
  Gpu.max_price (Sample.pricing "g6e.48xlarge" 4.0) = Ok (8 * 0.49)%float ∧
  Gpu.body (Sample.pricing "g6e.48xlarge" 4.0) = Ok false.
Proof.
  assert (Gpu.max_price (Sample.pricing "g6e.48xlarge" 4.0) = Ok (8 * 0.49)%float)
    as Hmax by (by vm_compute).
  split; [exact Hmax |].
  destruct (gpu_ceiling_bounds _ _ Hmax) as (_ & _ & Hgt & _).
  apply Hgt. by vm_compute.
Defined.

(** X4: for the same unit count the G5 ceiling is below the G6E ceiling,
    so a price at which a G5 record is printed gets a G6E record of that
    unit count printed as well. *)
Theorem g5_accepted_then_g6e (p5 p6 : Pricing) (n : Z) :
  Gpu.gpu_count p5 = Ok n →
  Gpu.gpu_count p6 = Ok n →
  Gpu.instance_family p5 = Ok Gpu.G5 →
  Gpu.instance_family p6 = Ok Gpu.G6E →
  (∃ c5 c6, Gpu.max_price p5 = Ok c5 ∧ Gpu.max_price p6 = Ok c6 ∧
            (c5 <? c6)%float = true) ∧
  ((spot_price p6 <=? spot_price p5)%float = true →
   Gpu.body p5 = Ok true → Gpu.body p6 = Ok true).
Proof.
  intros Hn5 Hn6 Hf5 Hf6.
  pose proof (gpu_max_price_of p5 n Gpu.G5 Hn5 Hf5) as Hmax5.
  pose proof (gpu_max_price_of p6 n Gpu.G6E Hn6 Hf6) as Hmax6.
  assert (Gpu.body p5 = Ok (spot_price p5 <=? float_of_int n * 0.49 / 2.35)%float) as Hb5.
  { apply gpu_body_max_price. by eexists. }
  assert (Gpu.body p6 = Ok (spot_price p6 <=? float_of_int n * 0.49)%float) as Hb6.
  { apply gpu_body_max_price. by eexists. }
  assert ((float_of_int n * 0.49 / 2.35 <=? float_of_int n * 0.49)%float = true
          ∧ (float_of_int n * 0.49 / 2.35 <? float_of_int n * 0.49)%float = true)
    as [Hle Hlt].
  { destruct (gpu_count_values _ _ Hn5) as [-> | [-> | ->]]; by vm_compute. }
  split.
  - eexists _, _. by repeat split.
  - intros Hprice. rewrite Hb5, Hb6. intros [= H5]. f_equal.
    eapply float_leb_trans; [exact Hprice |].
    eapply float_leb_trans; [exact H5 | exact Hle].
Qed.

Lemma g5_accepted_then_g6e_witness :
  Gpu.gpu_count (Sample.pricing "g5.12xlarge" 0.5) = Ok 4%Z ∧
  Gpu.instance_family (Sample.pricing "g6e.24xlarge" 0.5) = Ok Gpu.G6E ∧
  Gpu.body (Sample.pricing "g6e.24xlarge" 0.5) = Ok true.
Proof.
  assert (Gpu.gpu_count (Sample.pricing "g5.12xlarge" 0.5) = Ok 4%Z) as Hn5 by (by vm_compute).
  assert (Gpu.gpu_count (Sample.pricing "g6e.24xlarge" 0.5) = Ok 4%Z) as Hn6 by (by vm_compute).
  assert (Gpu.instance_family (Sample.pricing "g5.12xlarge" 0.5) = Ok Gpu.G5)
    as Hf5 by (by vm_compute).
  assert (Gpu.instance_family (Sample.pricing "g6e.24xlarge" 0.5) = Ok Gpu.G6E)
    as Hf6 by (by vm_compute).
  split; [exact Hn5 |]. split; [exact Hf6 |].
  destruct (g5_accepted_then_g6e _ _ _ Hn5 Hn6 Hf5 Hf6) as [_ Hacc].
  apply Hacc; by vm_compute.
Defined.

(** ** Decoding, once more *)

Lemma dict_get_Ok (data : raw) (key v : string) :
  dict_get data key = Ok v ↔ data !! key = Some v.
Proof.
  unfold dict_get. destruct (data !! key) as [w |]; split; congruence.
Qed.

(** X5: what [from_dict] returns comes from the record unchanged: the
    instance type and the zone are the two fields as they are, and the
    spot price is [float] of the "SpotPrice" field.  For a record whose
    "SpotPrice" is ASCII text, it succeeds exactly when no required field
    is missing and "SpotPrice" is a number. *)
Theorem from_dict_inversion (data : raw) (pricing : Pricing) :
  from_dict data = Ok pricing →
  data !! "InstanceType" = Some (instance_type pricing) ∧
  data !! "AvailabilityZoneId" = Some (zone_id pricing) ∧
  (∃ price, data !! "SpotPrice" = Some price ∧
            PyFloat.float_of_string price = Some (spot_price pricing)) ∧
  first_missing data = None ∧
  ∀ data',
    ascii_price data' = true →
    (is_ok (from_dict data') = true ↔
     first_missing data' = None ∧
     ∃ price f, data' !! "SpotPrice" = Some price ∧
                PyFloat.float_of_string price = Some f).
Proof.
  intros Hdec. unfold from_dict, dict_get, float in Hdec.
  destruct (data !! "InstanceType") as [it |] eqn:Hit; [| done].
  destruct (data !! "AvailabilityZoneId") as [zone |] eqn:Hzone; [| done].
  destruct (data !! "SpotPrice") as [price |] eqn:Hprice; [| done].
  cbn [mbind result_bind Py.bind] in Hdec.
  destruct (PyFloat.float_of_string price) as [f |] eqn:Hf; [| done].
  injection Hdec as <-. simpl.
  split; [done |]. split; [done |]. split; [by exists price |]. split.
  - unfold first_missing, required_fields. simpl. by rewrite Hit, Hzone, Hprice.
  - clear. intros data _.
    unfold first_missing, required_fields, from_dict, dict_get, float.
    simpl.
    destruct (data !! "InstanceType") as [it |]; simpl;
      [| split; [done | by intros [? _]]].
    destruct (data !! "AvailabilityZoneId") as [zone |]; simpl;
      [| split; [done | by intros [? _]]].
    destruct (data !! "SpotPrice") as [price |]; simpl;
      [| split; [done | by intros [? _]]].
    destruct (PyFloat.float_of_string price) as [f |] eqn:Hf; simpl.
    + split; [intros _; split; [done | by exists price, f] | done].
    + split; [done |]. intros [_ (price' & f & [= <-] & Hf')]. congruence.
Qed.

Lemma from_dict_inversion_witness :
  from_dict (Sample.data "c8g.48xlarge" "0.90") = Ok (Sample.pricing "c8g.48xlarge" 0.9) ∧
  Sample.data "c8g.48xlarge" "0.90" !! "InstanceType"
    = Some (instance_type (Sample.pricing "c8g.48xlarge" 0.9)).
Proof.
  assert (from_dict (Sample.data "c8g.48xlarge" "0.90")
          = Ok (Sample.pricing "c8g.48xlarge" 0.9)) as Hdec by (by vm_compute).
  split; [exact Hdec |].
  destruct (from_dict_inversion _ _ Hdec) as (Hit & _).
  exact Hit.
Defined.

(** X6: [from_dict] reads the three required fields and nothing else:
    adding, changing or removing any other field of the raw record (the
    remote API also sends "Timestamp" and "ProductDescription") does not
    change the result. *)
Theorem from_dict_ignores_other_fields (data : raw) (key v : string) :
  key ∉ required_fields →
  from_dict (<[key := v]> data) = from_dict data ∧
  from_dict (delete key data) = from_dict data.
Proof.
  intros Hkey. unfold required_fields in Hkey.
  rewrite !not_elem_of_cons in Hkey. destruct Hkey as (H1 & H2 & H3 & _).
  unfold from_dict, dict_get.
  by rewrite !lookup_insert_ne, !lookup_delete_ne by done.
Qed.

Lemma from_dict_ignores_other_fields_witness :
  ("Timestamp" ∉ required_fields) ∧
  from_dict (<["Timestamp" := "2026-11-04T00:00:00Z"]> (Sample.data "c8g.48xlarge" "0.90"))
    = from_dict (Sample.data "c8g.48xlarge" "0.90").
Proof.
  assert ("Timestamp" ∉ required_fields) as Hkey.
  { unfold required_fields. rewrite !not_elem_of_cons.
    repeat split; [done | done | done |]. apply not_elem_of_nil. }
  split; [exact Hkey |].
  destruct (from_dict_ignores_other_fields (Sample.data "c8g.48xlarge" "0.90")
              "Timestamp" "2026-11-04T00:00:00Z" Hkey) as [Hins _].
  exact Hins.
Defined.

(** ** Families and sizes *)

Lemma split_prefix (sep : ascii) (w rest : string) :
  sep ∉ list_ascii_of_string w →
  split sep (String.append w (String sep rest)) = w :: split sep rest.
Proof.
  induction w as [| c w IH]; simpl.
  - intros _. by rewrite Ascii.eqb_refl.
  - intros Hnot. apply not_elem_of_cons in Hnot as [Hne Hnot].
    destruct (Ascii.eqb_spec c sep) as [-> | _]; [done |].
    by rewrite (IH Hnot).
Qed.

Lemma split_cons_inv (sep : ascii) (s w : string) (ws : list string) :
  split sep s = w :: ws →
  (sep ∉ list_ascii_of_string w) ∧
  ((ws = [] ∧ s = w) ∨
   ∃ rest, s = String.append w (String sep rest) ∧ ws = split sep rest).
Proof.
  revert w ws. induction s as [| c s IH]; intros w ws; simpl.
  - intros [= <- <-]. split; [apply not_elem_of_nil | by left].
  - destruct (Ascii.eqb_spec c sep) as [-> | Hne].
    + intros [= <- <-]. split; [apply not_elem_of_nil |]. right. by exists s.
    + destruct (split sep s) as [| w' ws'] eqn:Hs; [by destruct (split_nonempty sep s) |].
      intros [= <- <-]. destruct (IH w' ws' eq_refl) as [Hnot Hcase]. split.
      * simpl. apply not_elem_of_cons. split; [congruence | done].
      * destruct Hcase as [[-> ->] | (rest & -> & ->)]; [by left |].
        right. by exists rest.
Qed.

Lemma InstanceFamily_of_value_Ok (v : string) (family : Gpu.InstanceFamily) :
  Gpu.InstanceFamily_of_value v = Ok family ↔ v = Gpu.InstanceFamily_value family.
Proof.
  unfold Gpu.InstanceFamily_of_value.
  destruct (String.eqb_spec v "g5") as [-> | H5];
    [by destruct family |].
  destruct (String.eqb_spec v "g6e") as [-> | H6];
    [by destruct family |].
  split; [done | by destruct family].
Qed.

Lemma InstanceFamily_value_no_dot (family : Gpu.InstanceFamily) :
  "."%char ∉ list_ascii_of_string (Gpu.InstanceFamily_value family).
Proof.
  destruct family; simpl; rewrite !not_elem_of_cons;
    repeat split; try done; apply not_elem_of_nil.
Qed.

Lemma instance_family_first_segment (pricing : Pricing) :
  ∃ v ws, split "." (instance_type pricing) = v :: ws ∧
          Gpu.instance_family pricing = Gpu.InstanceFamily_of_value v.
Proof.
  unfold Gpu.instance_family, getitem.
  destruct (split "." (instance_type pricing)) as [| v ws] eqn:Hs;
    [by destruct (split_nonempty "." (instance_type pricing)) |].
  by exists v, ws.
Qed.

Lemma instance_family_Ok_iff (pricing : Pricing) (family : Gpu.InstanceFamily) :
  Gpu.instance_family pricing = Ok family ↔
  instance_type pricing = Gpu.InstanceFamily_value family ∨
  ∃ rest, instance_type pricing
          = String.append (Gpu.InstanceFamily_value family) (String "." rest).
Proof.
  destruct (instance_family_first_segment pricing) as (v & ws & Hs & Hfam).
  rewrite Hfam, InstanceFamily_of_value_Ok. split.
  - intros ->. destruct (split_cons_inv _ _ _ _ Hs) as [_ [[_ ->] | (rest & -> & _)]];
      [by left | right; by exists rest].
  - intros [Heq | (rest & Heq)]; rewrite Heq in Hs.
    + rewrite split_no_sep in Hs by apply InstanceFamily_value_no_dot. congruence.
    + rewrite split_prefix in Hs by apply InstanceFamily_value_no_dot. congruence.
Qed.

(** X7: [instance_family] never raises [IndexError]: it looks at the text
    before the first "." (the whole instance type when there is none),
    and it is the family [f] exactly when the instance type is [str(f)]
    or starts with [str(f)] and a "."; anything else, upper case
    included, raises [ValueError] with that text. *)
Theorem instance_family_spec (pricing : Pricing) :
  Gpu.instance_family pricing ≠ Raise IndexError ∧
  (∀ family,
     Gpu.instance_family pricing = Ok family ↔
     instance_type pricing = Gpu.InstanceFamily_value family ∨
     ∃ rest, instance_type pricing
             = String.append (Gpu.InstanceFamily_value family) (String "." rest)) ∧
  (∀ e, Gpu.instance_family pricing = Raise e →
     ∃ v ws, split "." (instance_type pricing) = v :: ws ∧ e = ValueError v ∧
             v ≠ "g5" ∧ v ≠ "g6e").
Proof.
  destruct (instance_family_first_segment pricing) as (v & ws & Hs & Hfam).
  rewrite Hfam. split; [| split].
  - unfold Gpu.InstanceFamily_of_value.
    by destruct (String.eqb v "g5"), (String.eqb v "g6e").
  - intros family. rewrite <- Hfam. apply instance_family_Ok_iff.
  - intros e. unfold Gpu.InstanceFamily_of_value.
    destruct (String.eqb_spec v "g5") as [-> | H5]; [done |].
    destruct (String.eqb_spec v "g6e") as [-> | H6]; [done |].
    intros [= <-]. by exists v, ws.
Qed.

(** X8: the instance-type filter of [query_region] holds one pattern per
    family, [str(family)] followed by a dot and the wildcard; every
    instance type that extends a pattern's text before the wildcard has a
    family that [instance_family] knows, so the unknown-family error
    cannot come from a record the filter lets through. *)
Theorem filter_values_families (pattern : string) :
  pattern ∈ Gpu.filter_values →
  (∃ family, pattern = String.append (Gpu.InstanceFamily_value family) ".*") ∧
  ∀ prefix rest pricing,
    pattern = String.append prefix "*" →
    instance_type pricing = String.append prefix rest →
    ∃ family, Gpu.instance_family pricing = Ok family ∧
              pattern = String.append (Gpu.InstanceFamily_value family) ".*".
Proof.
  intros Hin. unfold Gpu.filter_values, Gpu.InstanceFamily_members in Hin.
  apply list_elem_of_fmap in Hin as (family & -> & _).
  split; [by exists family |].
  intros prefix rest pricing Hpat Htype. exists family. split; [| done].
  apply instance_family_Ok_iff. right. exists rest. rewrite Htype.
  assert (prefix = String.append (Gpu.InstanceFamily_value family) ".") as ->.
  { destruct family; simpl in Hpat.
    - destruct prefix as [| c1 [| c2 [| c3 [| c4 prefix]]]]; simplify_eq/=; try done.
      by destruct prefix.
    - destruct prefix as [| c1 [| c2 [| c3 [| c4 [| c5 prefix]]]]]; simplify_eq/=; try done.
      by destruct prefix. }
  by destruct family.
Qed.

Lemma filter_values_families_witness :
  ("g6e.*" ∈ Gpu.filter_values) ∧
  Gpu.instance_family (Sample.pricing "g6e.metal" 0.1) = Ok Gpu.G6E.
Proof.
  assert ("g6e.*" ∈ Gpu.filter_values) as Hin.
  { unfold Gpu.filter_values. simpl. rewrite !elem_of_cons. by right; left. }
  split; [exact Hin |].
  destruct (filter_values_families "g6e.*" Hin) as [_ Hall].
  destruct (Hall "g6e." "metal" (Sample.pricing "g6e.metal" 0.1) eq_refl eq_refl)
    as (family & Hfam & Hpat).
  destruct family; [discriminate Hpat | exact Hfam].
Defined.

Lemma instance_size_second_segment (pricing : Pricing) (size : string) :
  Gpu.instance_size pricing = Ok size ↔
  ∃ v ws, split "." (instance_type pricing) = v :: size :: ws.
Proof.
  unfold Gpu.instance_size, getitem.
  destruct (split "." (instance_type pricing)) as [| v [| size' ws]]; simpl.
  - split; [done | by intros (? & ? & ?)].
  - split; [done | by intros (? & ? & ?)].
  - split; [intros [= <-]; by exists v, ws | by intros (? & ? & [= _ <- _])].
Qed.

(** X9: an instance type written as family, ".", size reads back as
    that size, whatever follows a further "."; and as that family when
    the family is one the enum has.  The size is the text between the
    first and the second ".". *)
Theorem instance_type_round_trip (pricing : Pricing) (fam size : string) :
  "."%char ∉ list_ascii_of_string fam →
  "."%char ∉ list_ascii_of_string size →
  instance_type pricing = String.append fam (String "." size) ∨
  (∃ more, instance_type pricing
           = String.append fam (String "." (String.append size (String "." more)))) →
  Gpu.instance_size pricing = Ok size ∧
  Gpu.instance_family pricing = Gpu.InstanceFamily_of_value fam ∧
  ∀ family, fam = Gpu.InstanceFamily_value family →
            Gpu.instance_family pricing = Ok family.
Proof.
  intros Hfam Hsize Htype.
  assert (∃ ws, split "." (instance_type pricing) = fam :: size :: ws) as [ws Hs].
  { destruct Htype as [-> | (more & ->)].
    - exists []. by rewrite split_prefix, split_no_sep.
    - exists (split "." more). by rewrite !split_prefix. }
  assert (Gpu.instance_family pricing = Gpu.InstanceFamily_of_value fam) as Hf.
  { unfold Gpu.instance_family, getitem. by rewrite Hs. }
  split; [| split; [done |]].
  - apply instance_size_second_segment. by exists fam, ws.
  - intros family ->. rewrite Hf. by apply InstanceFamily_of_value_Ok.
Qed.

Lemma instance_type_round_trip_witness :
  ("."%char ∉ list_ascii_of_string "g6e") ∧
  Gpu.instance_size (Sample.pricing "g6e.12xlarge" 0.1) = Ok "12xlarge" ∧
  Gpu.instance_family (Sample.pricing "g6e.12xlarge" 0.1) = Ok Gpu.G6E.
Proof.
  assert ("."%char ∉ list_ascii_of_string "g6e") as Hfam.
  { simpl. rewrite !not_elem_of_cons. repeat split; try done. apply not_elem_of_nil. }
  assert ("."%char ∉ list_ascii_of_string "12xlarge") as Hsize.
  { simpl. rewrite !not_elem_of_cons. repeat split; try done. apply not_elem_of_nil. }
  split; [exact Hfam |].
  destruct (instance_type_round_trip (Sample.pricing "g6e.12xlarge" 0.1) "g6e" "12xlarge"
              Hfam Hsize (or_introl eq_refl)) as (Hs & _ & Hf).
  split; [exact Hs | exact (Hf Gpu.G6E eq_refl)].
Defined.

Lemma gpu_count_Ok_iff (pricing : Pricing) :
  is_ok (Gpu.gpu_count pricing) = true ↔
  ∃ size, Gpu.instance_size pricing = Ok size ∧
          size ∈ ["xlarge"; "2xlarge"; "4xlarge"; "8xlarge"; "16xlarge";
                  "12xlarge"; "24xlarge"; "48xlarge"].
Proof.
  destruct (Gpu.instance_size pricing) as [size | e] eqn:Hsize.
  - rewrite (gpu_count_of_size _ _ Hsize).
    change ["xlarge"; "2xlarge"; "4xlarge"; "8xlarge"; "16xlarge";
            "12xlarge"; "24xlarge"; "48xlarge"]
      with (["xlarge"; "2xlarge"; "4xlarge"; "8xlarge"; "16xlarge"]
            ++ ["12xlarge"; "24xlarge"] ++ ["48xlarge"]).
    split.
    + intros Hok. exists size. split; [done |]. rewrite !elem_of_app.
      destruct (one_of size ["xlarge"; "2xlarge"; "4xlarge"; "8xlarge"; "16xlarge"]) eqn:H1;
        [left; by apply one_of_elem_of |].
      destruct (one_of size ["12xlarge"; "24xlarge"]) eqn:H2;
        [right; left; by apply one_of_elem_of |].
      destruct (one_of size ["48xlarge"]) eqn:H3;
        [right; right; by apply one_of_elem_of | done].
    + intros (size' & [= <-] & Hin). rewrite !elem_of_app in Hin.
      destruct Hin as [Hin | [Hin | Hin]]; apply one_of_elem_of in Hin.
      * by rewrite Hin.
      * rewrite Hin.
        by destruct (one_of size ["xlarge"; "2xlarge"; "4xlarge"; "8xlarge"; "16xlarge"]).
      * rewrite Hin.
        by destruct (one_of size ["xlarge"; "2xlarge"; "4xlarge"; "8xlarge"; "16xlarge"]),
             (one_of size ["12xlarge"; "24xlarge"]).
  - unfold Gpu.gpu_count. rewrite Hsize. simpl. split; [done | by intros (? & ? & _)].
Qed.

(** X10: the loop body of the per-unit pipeline gives a verdict, without
    raising, exactly for the instance types whose first segment is "g5"
    or "g6e" and whose second segment is one of the eight sizes of the
    table; upper case, a missing size or an unknown size all raise. *)
Theorem gpu_body_ok_iff (pricing : Pricing) :
  is_ok (Gpu.body pricing) = true ↔
  ∃ fam size ws,
    split "." (instance_type pricing) = fam :: size :: ws ∧
    fam ∈ ["g5"; "g6e"] ∧
    size ∈ ["xlarge"; "2xlarge"; "4xlarge"; "8xlarge"; "16xlarge";
            "12xlarge"; "24xlarge"; "48xlarge"].
Proof.
  assert (is_ok (Gpu.body pricing) = true ↔
          is_ok (Gpu.gpu_count pricing) = true ∧
          is_ok (Gpu.instance_family pricing) = true) as ->.
  { unfold Gpu.body, Gpu.max_price.
    destruct (Gpu.gpu_count pricing), (Gpu.instance_family pricing); simpl;
      split; try done; by intros [? ?]. }
  rewrite gpu_count_Ok_iff. split.
  - intros [(size & Hsize & Hin) Hfam].
    apply instance_size_second_segment in Hsize as (fam & ws & Hs).
    exists fam, size, ws. split; [done |]. split; [| done].
    unfold Gpu.instance_family, getitem in Hfam. rewrite Hs in Hfam. simpl in Hfam.
    unfold Gpu.InstanceFamily_of_value in Hfam. rewrite !elem_of_cons.
    destruct (String.eqb_spec fam "g5"); [by left |].
    destruct (String.eqb_spec fam "g6e"); [by right; left | done].
  - intros (fam & size & ws & Hs & Hfam & Hin). split.
    + exists size. split; [| done]. apply instance_size_second_segment. by exists fam, ws.
    + unfold Gpu.instance_family, getitem. rewrite Hs. simpl.
      rewrite !elem_of_cons, elem_of_nil in Hfam.
      by destruct Hfam as [-> | [-> | []]].
Qed.

(** X11: when the size is in the table and the family is not one of the
    enum, the loop body raises [ValueError] with the family segment (not
    with the instance type, as the size error does); when both are
    unknown it is the size error that is raised, because [gpu_count] is
    read first. *)
Theorem unknown_family_error (pricing : Pricing) (fam size : string) (ws : list string) :
  split "." (instance_type pricing) = fam :: size :: ws →
  fam ∉ ["g5"; "g6e"] →
  Gpu.instance_family pricing = Raise (ValueError fam) ∧
  (is_ok (Gpu.gpu_count pricing) = true →
     Gpu.body pricing = Raise (ValueError fam)) ∧
  (is_ok (Gpu.gpu_count pricing) = false →
     Gpu.body pricing = Raise (ValueError (instance_type pricing))).
Proof.
  intros Hs Hfam.
  assert (Gpu.instance_family pricing = Raise (ValueError fam)) as Hf.
  { unfold Gpu.instance_family, getitem. rewrite Hs. simpl.
    unfold Gpu.InstanceFamily_of_value. rewrite !not_elem_of_cons in Hfam.
    destruct Hfam as (H5 & H6 & _).
    destruct (String.eqb_spec fam "g5"); [done |].
    by destruct (String.eqb_spec fam "g6e"). }
  assert (Gpu.instance_size pricing = Ok size) as Hsize.
  { apply instance_size_second_segment. by exists fam, ws. }
  split; [done |]. split.
  - intros Hok. apply gpu_body_raises. right. by split.
  - intros Hok. apply gpu_body_raises. left.
    rewrite (gpu_count_of_size _ _ Hsize) in *.
    repeat match goal with
    | H : context [if ?b then _ else _] |- _ => destruct b
    end; done.
Qed.

Lemma unknown_family_error_witness :
  split "." (instance_type (Sample.pricing "G5.xlarge" 0.1)) = ["G5"; "xlarge"] ∧
  Gpu.body (Sample.pricing "G5.xlarge" 0.1) = Raise (ValueError "G5").
Proof.
  assert (split "." (instance_type (Sample.pricing "G5.xlarge" 0.1)) = ["G5"; "xlarge"])
    as Hs by done.
  assert ("G5" ∉ ["g5"; "g6e"]) as Hfam.
  { rewrite !not_elem_of_cons. repeat split; try done. apply not_elem_of_nil. }
  split; [exact Hs |].
  destruct (unknown_family_error _ _ _ _ Hs Hfam) as (_ & Hbody & _).
  apply Hbody. by vm_compute.
Defined.

(** ** What a run prints *)

Section Output.
Variable body : Pricing → result bool.

Lemma consume_sublist (stream : list Pricing) :
  (consume body stream).1 `sublist_of` stream ∧
  Forall (λ p, body p = Ok true) (consume body stream).1.
Proof.
  induction stream as [| p stream [IHs IHf]]; simpl; [by split; constructor |].
  destruct (body p) as [b | e] eqn:Hb.
  - destruct (consume body stream) as [out err]. simpl in *.
    destruct b; split; try done.
    + by apply sublist_skip.
    + by constructor.
    + by apply sublist_cons.
  - split; [apply sublist_nil_l | constructor].
Qed.

Lemma insert_keeps_done (ts : list task) (i j : nat) (t t' : task) :
  ts !! i = Some t → t ≠ Done →
  ts !! j = Some Done → <[i := t']> ts !! j = Some Done.
Proof.
  intros Hi Hne Hj. destruct (decide (j = i)) as [-> | Hji]; [congruence |].
  by rewrite list_lookup_insert_ne.
Qed.

Lemma step_grows (st : state) (c : pick) :
  received st `prefix_of` received (step body st c) ∧
  printed st `prefix_of` printed (step body st c) ∧
  length (tasks (step body st c)) = length (tasks st) ∧
  (open_send_channels (step body st c) ≤ open_send_channels st)%nat ∧
  ∀ i, tasks st !! i = Some Done → tasks (step body st c) !! i = Some Done.
Proof.
  unfold step. destruct (run_status st); [| by repeat split..].
  destruct c as [i |].
  - unfold task_step. destruct (tasks st !! i) as [t |] eqn:Hi; [| by repeat split].
    pose proof (insert_keeps_done (tasks st) i) as Hkeep.
    assert (∀ t', t ≠ Done →
      received st `prefix_of` received (set_task i t' st) ∧
      printed st `prefix_of` printed (set_task i t' st) ∧
      length (tasks (set_task i t' st)) = length (tasks st) ∧
      (open_send_channels (set_task i t' st) ≤ open_send_channels st)%nat ∧
      ∀ j, tasks st !! j = Some Done → tasks (set_task i t' st) !! j = Some Done)
      as Hset.
    { intros t' Hne. simpl. rewrite length_insert. repeat split; try done.
      intros j. by eapply Hkeep. }
    assert (∀ t', t ≠ Done →
      received st `prefix_of` received (close_clone i t' st) ∧
      printed st `prefix_of` printed (close_clone i t' st) ∧
      length (tasks (close_clone i t' st)) = length (tasks st) ∧
      (open_send_channels (close_clone i t' st) ≤ open_send_channels st)%nat ∧
      ∀ j, tasks st !! j = Some Done → tasks (close_clone i t' st) !! j = Some Done)
      as Hclose.
    { intros t' Hne. simpl. rewrite length_insert. repeat split; try done; try lia.
      intros j. by eapply Hkeep. }
    destruct t as [feed | rest | [| data cur] rest | | e rest b |].
    + destruct feed as [| [l | |] rest]; unfold next_page;
        first [by apply Hset | by apply Hclose].
    + destruct rest as [| [l | |] rest]; unfold next_page;
        first [by apply Hset | by apply Hclose].
    + by apply Hset.
    + destruct (from_dict data) as [pricing | e]; [| by apply Hclose].
      unfold deliver. simpl.
      destruct (body pricing) as [[] | e]; simpl; rewrite length_insert;
        repeat split; try done; try (by apply prefix_app_r);
        intros j; by eapply Hkeep.
    + by apply Hset.
    + by apply (Hset Done).
    + by repeat split.
  - unfold consumer_step. destruct (Nat.eqb (open_send_channels st) 0); by repeat split.
Qed.

Lemma exec_grows (sched : list pick) (st : state) :
  received st `prefix_of` received (exec body sched st) ∧
  printed st `prefix_of` printed (exec body sched st) ∧
  length (tasks (exec body sched st)) = length (tasks st) ∧
  (open_send_channels (exec body sched st) ≤ open_send_channels st)%nat ∧
  ∀ i, tasks st !! i = Some Done → tasks (exec body sched st) !! i = Some Done.
Proof.
  revert st. induction sched as [| c sched IH]; intros st; simpl; [by repeat split |].
  destruct (step_grows st c) as (Hr & Hp & Hl & Ho & Hd).
  destruct (IH (step body st c)) as (Hr' & Hp' & Hl' & Ho' & Hd').
  repeat split; try (by etrans); try lia. intros i Hi. by apply Hd', Hd.
Qed.

End Output.

(** X12: whatever the regions return and whatever the schedule, also in
    a run that is aborted, the printed records are records that came
    through the stream, in the order of their arrival, and each of them
    was accepted by the loop body: in the flat pipeline its price is at
    most 1.2, in the per-unit pipeline at most the ceiling of its
    instance type. *)
Theorem printed_records_accepted (feeds : list (list fetch)) (sched : list pick) :
  (∀ body,
     printed (main body feeds sched) `sublist_of` received (main body feeds sched) ∧
     Forall (λ p, body p = Ok true) (printed (main body feeds sched))) ∧
  Forall (λ p, (spot_price p <=? 1.2)%float = true)
    (printed (main Cpu.body feeds sched)) ∧
  Forall (λ p, ∃ ceiling, Gpu.max_price p = Ok ceiling ∧
                          (spot_price p <=? ceiling)%float = true)
    (printed (main Gpu.body feeds sched)).
Proof.
  assert (∀ body,
     printed (main body feeds sched) `sublist_of` received (main body feeds sched) ∧
     Forall (λ p, body p = Ok true) (printed (main body feeds sched))) as Hall.
  { intros body. destruct (run_inv_main body feeds sched) as [_ Hpr _ _ _].
    rewrite Hpr. apply consume_sublist. }
  split; [done |]. split.
  - destruct (Hall Cpu.body) as [_ Hf]. eapply Forall_impl; [exact Hf |].
    intros p [= Hp]. exact Hp.
  - destruct (Hall Gpu.body) as [_ Hf]. eapply Forall_impl; [exact Hf |].
    intros p Hp. apply gpu_body_max_price in Hp as (c & Hmax & Hc). by exists c.
Qed.

(** X13: the output is append-only: running a schedule further never
    takes back or reorders what was received or printed; it only adds at
    the end. *)
Theorem output_append_only (body : Pricing → result bool)
    (feeds : list (list fetch)) (sched more : list pick) :
  received (main body feeds sched) `prefix_of` received (main body feeds (sched ++ more)) ∧
  printed (main body feeds sched) `prefix_of` printed (main body feeds (sched ++ more)).
Proof.
  unfold main. rewrite exec_app.
  destruct (exec_grows body more (exec body sched (spawn feeds))) as (Hr & Hp & _).
  by split.
Qed.

(** X14: a run has one task per region from its start to its end; a
    task that has ended stays so; the number of open send ends of the
    stream is the number of regions when the loop of [main] starts, and
    it never goes up. *)
Theorem tasks_never_restart (body : Pricing → result bool)
    (feeds : list (list fetch)) (sched more : list pick) :
  length (tasks (main body feeds sched)) = length feeds ∧
  open_send_channels (main body feeds []) = length feeds ∧
  (open_send_channels (main body feeds (sched ++ more))
   ≤ open_send_channels (main body feeds sched))%nat ∧
  (open_send_channels (main body feeds sched) ≤ length feeds)%nat ∧
  ∀ i, tasks (main body feeds sched) !! i = Some Done →
       tasks (main body feeds (sched ++ more)) !! i = Some Done.
Proof.
  unfold main. rewrite exec_app.
  destruct (exec_grows body more (exec body sched (spawn feeds))) as (_ & _ & _ & Ho & Hd).
  destruct (exec_grows body sched (spawn feeds)) as (_ & _ & Hl & Ho' & _).
  assert (length (tasks (spawn feeds)) = length feeds) as Hl0
    by (rewrite spawn_eq; simpl; apply length_fmap).
  assert (open_send_channels (spawn feeds) = length feeds) as Ho0
    by (by rewrite spawn_eq).
  rewrite Hl0 in Hl. rewrite Ho0 in Ho'. by repeat split.
Qed.

(** X15: a run that reaches the end of the stream has printed every
    record of every region that the loop body accepts, each once: the
    printed records are, up to their order, the accepted ones among all
    the records of all the pages, and no record made the body raise. *)
Theorem closed_run_prints_all (body : Pricing → result bool)
    (feeds : list (list fetch)) (sched : list pick) :
  run_status (main body feeds sched) = Closed →
  ∃ seqs,
    Forall2 (λ feed seq, trace feed = Ok <$> seq) feeds seqs ∧
    received (main body feeds sched) ≡ₚ concat seqs ∧
    printed (main body feeds sched) ≡ₚ List.filter (accepts body) (concat seqs) ∧
    Forall (λ p, is_ok (body p) = true) (concat seqs).
Proof.
  intros Hst. destruct (run_inv_main body feeds sched) as [Ho Hp Hr Hcl Hs].
  assert (∀ e, run_status (main body feeds sched) ≠ Aborted e) as Hna
    by (intros e; by rewrite Hst).
  destruct (stream_inv_done feeds _ _ (Hs Hna) (Hcl Hst)) as (seqs & Hf & HI).
  exists seqs. apply Interleaving_Permutation in HI.
  pose proof (consume_no_error body _ (Hr Hna)) as Hok.
  split; [done |]. split; [done |]. split.
  - rewrite Hp, (consume_filter body _ Hok). simpl.
    clear -HI. induction HI as [| x l l' _ IH | x y l | l l' l'' _ IH1 _ IH2]; simpl.
    + done.
    + destruct (accepts body x); by rewrite ?IH.
    + destruct (accepts body x), (accepts body y); try done. apply perm_swap.
    + by rewrite IH1.
  - by rewrite <- HI.
Qed.

Lemma closed_run_prints_all_witness :
  run_status (main Cpu.body Sample.feeds_healthy (round_robin 2 7)) = Closed ∧
  length (printed (main Cpu.body Sample.feeds_healthy (round_robin 2 7))) = 2.
Proof.
  assert (run_status (main Cpu.body Sample.feeds_healthy (round_robin 2 7)) = Closed)
    as Hst by (by vm_compute).
  split; [exact Hst |].
  destruct (closed_run_prints_all _ _ _ Hst) as (seqs & _ & _ & _ & _).
  by vm_compute.
Defined.

(** ** Why a run is aborted *)

Lemma trace_elem_of_remaining (feeds : list (list fetch)) (ts : list task)
    (rcv : list Pricing) (i : nat) (t : task) (r : result Pricing) :
  stream_inv feeds ts rcv →
  ts !! i = Some t →
  r ∈ trace (remaining t) →
  ∃ feed, feed ∈ feeds ∧ r ∈ trace feed.
Proof.
  intros (sent & Hlen & Hlen' & _ & Hall) Hi Hr.
  destruct (lookup_lt_is_Some_2 feeds i) as [feed Hfeed].
  { rewrite <- Hlen'. by eapply lookup_lt_Some. }
  destruct (Hall i feed Hfeed) as (t' & s & Ht' & _ & Heq & _).
  rewrite Hi in Ht'. injection Ht' as <-.
  exists feed. split; [by eapply list_elem_of_lookup_2 |].
  rewrite Heq. apply elem_of_app. by right.
Qed.

(** The exception a task is unwinding with was raised by its feed. *)
Lemma failing_elem_of_trace (feeds : list (list fetch)) (ts : list task)
    (rcv : list Pricing) (i : nat) (e : exn) (rest : list fetch) (b : bool) :
  stream_inv feeds ts rcv →
  ts !! i = Some (Failing e rest b) →
  ∃ feed, feed ∈ feeds ∧ Raise e ∈ trace feed.
Proof.
  intros Hinv Hi. eapply trace_elem_of_remaining; [done.. |].
  destruct Hinv as (sent & Hlen & Hlen' & _ & Hall).
  destruct (lookup_lt_is_Some_2 feeds i) as [feed Hfeed].
  { rewrite <- Hlen'. by eapply lookup_lt_Some. }
  destruct (Hall i feed Hfeed) as (t' & s & Ht' & _ & _ & Hr).
  rewrite Hi in Ht'. injection Ht' as <-. simpl in *.
  destruct (trace rest) as [| r tl]; simplify_eq/=. apply elem_of_cons. by left.
Qed.

Lemma head_failure_inv (ts : list task) (e : exn) :
  head (omap failure ts) = Some e →
  ∃ i rest b, ts !! i = Some (Failing e rest b).
Proof.
  induction ts as [| t ts IH]; simpl; [done |].
  destruct t as [feed | rest | cur rest | | e' rest b |]; simpl;
    try (intros Hf; destruct (IH Hf) as (i & rest' & b' & Hi); by exists (S i), rest', b').
  intros [= ->]. by exists 0, rest, b.
Qed.

Lemma step_abort_cause (body : Pricing → result bool) (feeds : list (list fetch))
    (st : state) (c : pick) (e : exn) :
  run_status st = Running →
  stream_inv feeds (tasks st) (received st) →
  run_status (step body st c) = Aborted e →
  (∃ feed, feed ∈ feeds ∧ Raise e ∈ trace feed) ∨
  (∃ feed p, feed ∈ feeds ∧ Ok p ∈ trace feed ∧ body p = Raise e).
Proof.
  intros Hst Hinv. unfold step. rewrite Hst. destruct c as [i |].
  - unfold task_step. destruct (tasks st !! i) as [t |] eqn:Hi; [| by rewrite Hst].
    pose proof (trace_elem_of_remaining feeds (tasks st) (received st) i t) as Hrem.
    destruct t as [feed | rest | [| data cur] rest | | e' rest b |].
    + destruct feed as [| [l | |] rest]; simpl; by rewrite Hst.
    + destruct rest as [| [l | |] rest]; simpl; by rewrite Hst.
    + simpl. by rewrite Hst.
    + destruct (from_dict data) as [pricing | e'] eqn:Hdec; simpl; [| by rewrite Hst].
      unfold deliver. simpl.
      destruct (body pricing) as [[] | e'] eqn:Hb; simpl; rewrite ?Hst; try done.
      intros [= <-]. right.
      destruct (Hrem (Ok pricing) Hinv Hi) as (feed & Hin & Hel).
      { simpl. rewrite Hdec. apply elem_of_cons. by left. }
      by exists feed, pricing.
    + simpl. by rewrite Hst.
    + simpl. intros [= <-]. left. by eapply failing_elem_of_trace.
    + by rewrite Hst.
  - unfold consumer_step. destruct (Nat.eqb (open_send_channels st) 0); simpl;
      [| by rewrite Hst].
    destruct (head (omap failure (tasks st))) as [e' |] eqn:Hf; [| done].
    intros [= <-]. left.
    destruct (head_failure_inv _ _ Hf) as (i & rest & b & Hi).
    by eapply failing_elem_of_trace.
Qed.

Lemma main_snoc (body : Pricing → result bool) (feeds : list (list fetch))
    (sched : list pick) (c : pick) :
  main body feeds (sched ++ [c]) = step body (main body feeds sched) c.
Proof. unfold main. by rewrite exec_app. Qed.

Lemma abort_cause (body : Pricing → result bool) (feeds : list (list fetch))
    (sched : list pick) (e : exn) :
  run_status (main body feeds sched) = Aborted e →
  (∃ feed, feed ∈ feeds ∧ Raise e ∈ trace feed) ∨
  (∃ feed p, feed ∈ feeds ∧ Ok p ∈ trace feed ∧ body p = Raise e).
Proof.
  induction sched as [| c sched IH] using rev_ind.
  - change (main body feeds []) with (spawn feeds). by rewrite spawn_eq.
  - rewrite main_snoc.
    destruct (run_status (main body feeds sched)) eqn:Hst.
    + destruct (run_inv_main body feeds sched) as [_ _ _ _ Hs].
      apply step_abort_cause; [done |]. apply Hs. intros e'. by rewrite Hst.
    + rewrite step_not_running by (by rewrite Hst). by rewrite Hst.
    + rewrite step_not_running by (by rewrite Hst). rewrite Hst. exact IH.
Qed.

Lemma trace_Raise (feed : list fetch) (e : exn) :
  Raise e ∈ trace feed →
  e = FetchError ∨ ∃ l data, Page l ∈ feed ∧ data ∈ l ∧ from_dict data = Raise e.
Proof.
  induction feed as [| [l | |] rest IH]; simpl.
  - by intros ?%elem_of_nil.
  - rewrite elem_of_app. intros [Hl | Hrest].
    + apply list_elem_of_fmap in Hl as (data & Hdec & Hin). right.
      exists l, data. split; [apply elem_of_cons; by left | by split].
    + destruct (IH Hrest) as [-> | (l' & data & Hp & Hin & Hdec)]; [by left |].
      right. exists l', data. split; [apply elem_of_cons; by right | by split].
  - rewrite elem_of_cons. intros [[= ->] | Hrest]; [by left |].
    destruct (IH Hrest) as [-> | (l' & data & Hp & Hin & Hdec)]; [by left |].
    right. exists l', data. split; [apply elem_of_cons; by right | by split].
  - rewrite elem_of_cons. intros [[= ->] | Hrest]; [by left |].
    destruct (IH Hrest) as [-> | (l' & data & Hp & Hin & Hdec)]; [by left |].
    right. exists l', data. split; [apply elem_of_cons; by right | by split].
Qed.

Lemma from_dict_Raise (data : raw) (e : exn) :
  from_dict data = Raise e →
  (∃ key, key ∈ required_fields ∧ data !! key = None ∧ e = KeyError key) ∨
  (∃ price, data !! "SpotPrice" = Some price ∧
            PyFloat.float_of_string price = None ∧ e = ValueError price).
Proof.
  unfold from_dict, dict_get, float, required_fields.
  destruct (data !! "InstanceType") as [it |] eqn:Hit; simpl.
  2: { intros [= <-]. left. exists "InstanceType". rewrite !elem_of_cons. by auto. }
  destruct (data !! "AvailabilityZoneId") as [zone |] eqn:Hzone; simpl.
  2: { intros [= <-]. left. exists "AvailabilityZoneId". rewrite !elem_of_cons. by auto. }
  destruct (data !! "SpotPrice") as [price |] eqn:Hprice; simpl.
  2: { intros [= <-]. left. exists "SpotPrice". rewrite !elem_of_cons. by auto 6. }
  destruct (PyFloat.float_of_string price) eqn:Hf; simpl; [done |].
  intros [= <-]. right. by exists price.
Qed.

(** X16: the exception that ends a run, the one the run records, comes
    from what a region returned: it was raised by some region's client
    or paginator, or by decoding one of its records, or by the loop body
    on one of its records.  So when no client or paginator raises, every
    record decodes and the loop body raises on none of them, no schedule
    aborts the run. *)
Theorem abort_has_a_cause (body : Pricing → result bool)
    (feeds : list (list fetch)) (sched : list pick) :
  (∀ e, run_status (main body feeds sched) = Aborted e →
     (∃ feed, feed ∈ feeds ∧ Raise e ∈ trace feed) ∨
     (∃ feed p, feed ∈ feeds ∧ Ok p ∈ trace feed ∧ body p = Raise e)) ∧
  (Forall (Forall (λ r, ∃ p, r = Ok p ∧ is_ok (body p) = true)) (trace <$> feeds) →
   ∀ e, run_status (main body feeds sched) ≠ Aborted e).
Proof.
  split; [intros e; apply abort_cause |].
  intros Hok e Hab. rewrite Forall_fmap, Forall_forall in Hok.
  destruct (abort_cause _ _ _ _ Hab) as [(feed & Hin & Hr) | (feed & p & Hin & Hp & Hb)];
    specialize (Hok feed Hin); simpl in Hok; rewrite Forall_forall in Hok.
  - by destruct (Hok _ Hr) as (p & [=] & _).
  - destruct (Hok _ Hp) as (p' & [= <-] & Hok'). by rewrite Hb in Hok'.
Qed.

(** X17: when the "SpotPrice" fields are ASCII text, the exception that
    ends a run of the flat pipeline is of one of three kinds: the error
    of a client or paginator, a [KeyError] for one of the three required
    fields that a record lacks, or a [ValueError] for a "SpotPrice" that
    is no number; its loop body never raises, so an [IndexError] never
    ends it. *)
Theorem cpu_abort_errors (feeds : list (list fetch)) (sched : list pick) (e : exn) :
  ascii_prices feeds = true →
  run_status (main Cpu.body feeds sched) = Aborted e →
  e = FetchError ∨
  (∃ feed l data key,
     feed ∈ feeds ∧ Page l ∈ feed ∧ data ∈ l ∧
     key ∈ required_fields ∧ data !! key = None ∧ e = KeyError key) ∨
  (∃ feed l data price,
     feed ∈ feeds ∧ Page l ∈ feed ∧ data ∈ l ∧
     data !! "SpotPrice" = Some price ∧
     PyFloat.float_of_string price = None ∧ e = ValueError price).
Proof.
  intros _ Hab.
  destruct (abort_cause _ _ _ _ Hab) as [(feed & Hin & Hr) | (feed & p & _ & _ & Hb)];
    [| done].
  destruct (trace_Raise _ _ Hr) as [-> | (l & data & Hp & Hd & Hdec)]; [by left |].
  right. destruct (from_dict_Raise _ _ Hdec)
    as [(key & Hk & Hnone & ->) | (price & Hprice & Hf & ->)].
  - left. by exists feed, l, data, key.
  - right. by exists feed, l, data, price.
Qed.

Lemma cpu_abort_errors_witness :
  ascii_prices Sample.feeds_unparsable = true ∧
  run_status (main Cpu.body Sample.feeds_unparsable [Task 0; Task 0; Task 0])
    = Aborted (ValueError "n/a") ∧
  (ValueError "n/a" = FetchError ∨
   (∃ feed l data key,
      feed ∈ Sample.feeds_unparsable ∧ Page l ∈ feed ∧ data ∈ l ∧
      key ∈ required_fields ∧ data !! key = None ∧ ValueError "n/a" = KeyError key) ∨
   (∃ feed l data price,
      feed ∈ Sample.feeds_unparsable ∧ Page l ∈ feed ∧ data ∈ l ∧
      data !! "SpotPrice" = Some price ∧
      PyFloat.float_of_string price = None ∧ ValueError "n/a" = ValueError price)).
Proof.
  assert (ascii_prices Sample.feeds_unparsable = true) as Hascii by (by vm_compute).
  assert (run_status (main Cpu.body Sample.feeds_unparsable [Task 0; Task 0; Task 0])
          = Aborted (ValueError "n/a")) as Hab by (by vm_compute).
  split; [exact Hascii |]. split; [exact Hab |].
  exact (cpu_abort_errors _ _ _ Hascii Hab).
Defined.

(** ** The order within a region *)

Lemma stream_inv_order (feeds : list (list fetch)) (ts : list task)
    (rcv : list Pricing) :
  stream_inv feeds ts rcv →
  ∃ sent, Forall2 (λ feed s, (Ok <$> s) `prefix_of` trace feed) feeds sent ∧
          Interleaving sent rcv.
Proof.
  intros (sent & Hlen & _ & HI & Hall). exists sent. split; [| done].
  apply Forall2_same_length_lookup_2; [done |].
  intros i feed s Hfeed Hs.
  destruct (Hall i feed Hfeed) as (t & s' & _ & Hs' & Heq & _). simplify_eq.
  rewrite Heq. by apply prefix_app_r.
Qed.

Lemma step_order (body : Pricing → result bool) (feeds : list (list fetch))
    (st : state) (c : pick) :
  run_status st = Running →
  stream_inv feeds (tasks st) (received st) →
  ∃ sent, Forall2 (λ feed s, (Ok <$> s) `prefix_of` trace feed) feeds sent ∧
          Interleaving sent (received (step body st c)).
Proof.
  intros Hst Hinv. pose proof (stream_inv_order _ _ _ Hinv) as Hsame.
  unfold step. rewrite Hst. destruct c as [i |].
  - unfold task_step. destruct (tasks st !! i) as [t |] eqn:Hi; [| done].
    destruct t as [feed | rest | [| data cur] rest | | e rest b |]; try done.
    + by destruct feed as [| [l | |] rest].
    + by destruct rest as [| [l | |] rest].
    + destruct (from_dict data) as [pricing | e] eqn:Hdec; [| done].
      pose proof (stream_inv_send _ _ _ _ _ _ _ _ Hi Hdec Hinv) as Hsend.
      apply stream_inv_order in Hsend.
      unfold deliver. simpl. by destruct (body pricing) as [[] | e].
  - unfold consumer_step. by destruct (Nat.eqb (open_send_channels st) 0).
Qed.

(** X18: in every state of every run, an aborted one included, what has
    come through the stream is a merge of one sequence per region, and
    the sequence of a region is the beginning of that region's records in
    the order of its pages: a region's records are never reordered,
    repeated or skipped. *)
Theorem region_order_preserved (body : Pricing → result bool)
    (feeds : list (list fetch)) (sched : list pick) :
  ∃ sent,
    Forall2 (λ feed s, (Ok <$> s) `prefix_of` trace feed) feeds sent ∧
    Interleaving sent (received (main body feeds sched)).
Proof.
  induction sched as [| c sched IH] using rev_ind.
  - change (main body feeds []) with (spawn feeds). rewrite spawn_eq. simpl.
    apply (stream_inv_order feeds (Opening <$> feeds)), stream_inv_init.
  - rewrite main_snoc.
    destruct (run_status (main body feeds sched)) eqn:Hst.
    + destruct (run_inv_main body feeds sched) as [_ _ _ _ Hs].
      apply step_order; [done |]. apply Hs. intros e. by rewrite Hst.
    + by rewrite step_not_running by (by rewrite Hst).
    + by rewrite step_not_running by (by rewrite Hst).
Qed.

(** ** Every run can be brought to an end *)

Lemma work_insert (ts : list task) (i : nat) (t t' : task) :
  ts !! i = Some t →
  work (<[i := t']> ts) + task_work t = work ts + task_work t'.
Proof.
  unfold work. revert i. induction ts as [| t0 ts IH]; intros [| i] Hi; simplify_eq/=.
  - lia.
  - specialize (IH _ Hi). lia.
Qed.

Lemma all_done_or_not (ts : list task) :
  live ts = 0 ∨ ∃ i t, ts !! i = Some t ∧ t ≠ Done.
Proof.
  unfold live. induction ts as [| t ts IH]; simpl; [by left |].
  destruct t as [feed | rest | cur rest | | e rest b |];
    try (right; by eexists 0, _).
  destruct IH as [H0 | (i & t & Hi & Hne)]; [by left |].
  right. by exists (S i), t.
Qed.

Lemma step_task_progress (body : Pricing → result bool) (st : state) (i : nat) (t : task) :
  run_status st = Running →
  tasks st !! i = Some t → t ≠ Done →
  run_status (step body st (Task i)) = Running →
  work (tasks (step body st (Task i))) < work (tasks st).
Proof.
  intros Hst Hi Hne. unfold step, task_step. rewrite Hst, Hi.
  pose proof (work_insert (tasks st) i t) as Hw.
  destruct t as [feed | rest | [| data cur] rest | | e rest b |]; try done.
  - destruct feed as [| [l | |] rest]; simpl; intros _.
    + specialize (Hw Leaving Hi). simpl in Hw. lia.
    + specialize (Hw (Sending l rest) Hi). simpl in Hw. lia.
    + specialize (Hw (Failing FetchError (Fault :: rest) false) Hi). simpl in Hw. lia.
    + specialize (Hw (Failing FetchError (Refused :: rest) true) Hi). simpl in Hw. lia.
  - destruct rest as [| [l | |] rest]; simpl; intros _.
    + specialize (Hw Leaving Hi). simpl in Hw. lia.
    + specialize (Hw (Sending l rest) Hi). simpl in Hw. lia.
    + specialize (Hw (Failing FetchError (Fault :: rest) false) Hi). simpl in Hw. lia.
    + specialize (Hw (Failing FetchError (Refused :: rest) false) Hi). simpl in Hw. lia.
  - simpl. intros _. specialize (Hw (Paging rest) Hi). simpl in Hw. lia.
  - destruct (from_dict data) as [pricing | e].
    + unfold deliver. simpl. specialize (Hw (Sending cur rest) Hi). simpl in Hw.
      destruct (body pricing) as [[] | e]; simpl; try done; intros _; lia.
    + simpl. intros _.
      specialize (Hw (Failing e (Page (data :: cur) :: rest) false) Hi).
      simpl in Hw. lia.
  - simpl. intros _. specialize (Hw Done Hi). simpl in Hw. lia.
Qed.

Lemma run_can_end (body : Pricing → result bool) (feeds : list (list fetch))
    (n : nat) (st : state) :
  run_inv body feeds st →
  (work (tasks st) ≤ n)%nat →
  ∃ more, (length more ≤ S n)%nat ∧ run_status (exec body more st) ≠ Running.
Proof.
  assert (∀ st', run_inv body feeds st' → run_status st' = Running →
                 live (tasks st') = 0 →
                 run_status (exec body [Consumer] st') ≠ Running) as Hclose.
  { clear. intros st Hinv Hst H0. simpl. unfold step, consumer_step.
    rewrite Hst, (inv_open _ _ _ Hinv), H0 by (intros e; by rewrite Hst). simpl.
    by destruct (head (omap failure (tasks st))). }
  revert st. induction n as [| n IH]; intros st Hinv Hwork;
    (destruct (run_status st) eqn:Hst;
       [| exists []; split; [simpl; lia | simpl; by rewrite Hst]..]);
    (destruct (all_done_or_not (tasks st)) as [H0 | (i & t & Hi & Hne)];
       [exists [Consumer]; split; [simpl; lia | by apply Hclose] |]);
    (destruct (run_status (step body st (Task i))) eqn:Hst';
       [| exists [Task i]; split; [simpl; lia | simpl; by rewrite Hst']..]);
    pose proof (step_task_progress body st i t Hst Hi Hne Hst') as Hlt.
  - lia.
  - destruct (IH (step body st (Task i))) as (more & Hlen & Hend).
    { by apply run_inv_step. }
    { lia. }
    exists (Task i :: more). split; [simpl; lia | done].
Qed.

(** X19: no run gets stuck: from the state any schedule has led to, some
    further picks, no more than the steps the tasks have left plus one
    for the consumer, bring the run to its end, closed or aborted. *)
Theorem every_run_can_end (body : Pricing → result bool)
    (feeds : list (list fetch)) (sched : list pick) :
  ∃ more,
    (length more ≤ S (work (tasks (main body feeds sched))))%nat ∧
    run_status (main body feeds (sched ++ more)) ≠ Running.
Proof.
  destruct (run_can_end body feeds (work (tasks (main body feeds sched)))
              (main body feeds sched)) as (more & Hlen & Hend).
  - apply run_inv_main.
  - done.
  - exists more. split; [done |]. unfold main in *. by rewrite exec_app.
Qed.

(** ** The loop of [main] over a stream *)

(** X20: the loop of [main] composes over a stream cut in two: when it
    gets through the first part without an exception, it prints what it
    prints for the first part followed by what it prints for the second;
    when the first part raises, the second part makes no difference. *)
Theorem consume_app (body : Pricing → result bool) (s1 s2 : list Pricing) :
  consume body (s1 ++ s2) =
    match (consume body s1).2 with
    | None => ((consume body s1).1 ++ (consume body s2).1, (consume body s2).2)
    | Some e => consume body s1
    end.
Proof.
  induction s1 as [| p s1 IH]; simpl.
  - by destruct (consume body s2).
  - destruct (body p) as [b | e]; [| done].
    rewrite IH. destruct (consume body s1) as [out1 [e1 |]]; simpl; [done |].
    by destruct b.
Qed.

(** X21: the loop of the flat pipeline never raises and is a filter: for
    every stream it goes through all of it and prints exactly the
    records priced at most 1.2, in the order of their arrival, without
    removing duplicates. *)
Theorem cpu_loop_is_a_filter (stream : list Pricing) :
  consume Cpu.body stream
  = (List.filter (λ p, (spot_price p <=? 1.2)%float) stream, None).
Proof.
  induction stream as [| p stream IH]; simpl; [done |].
  rewrite IH. unfold Cpu.MAX_PRICE. by destruct (spot_price p <=? 1.2)%float.
Qed.

(** X22: when no paginator raises, every record decodes and the loop
    body raises on none of them, the run that serves the regions one
    after the other, each to its end, reaches the end of the stream and
    prints the accepted records region by region, in the order of the
    regions and of their pages. *)
Theorem sequential_run_output (body : Pricing → result bool)
    (feeds : list (list fetch)) (seqs : list (list Pricing)) :
  Forall2 (λ feed seq, trace feed = Ok <$> seq) feeds seqs →
  Forall (Forall (λ p, is_ok (body p) = true)) seqs →
  run_status (main body feeds (sequential feeds)) = Closed ∧
  printed (main body feeds (sequential feeds))
    = concat (List.filter (accepts body) <$> seqs) ∧
  length (sequential feeds) = S (sum_list (task_steps <$> feeds)).
Proof.
  intros Htr Hok.
  destruct (sequential_run_closes body feeds seqs Htr Hok) as (Hc & _ & Hp).
  split; [done |]. split.
  - rewrite Hp. clear. induction seqs as [| seq seqs IH]; simpl; [done |].
    by rewrite List.filter_app, IH.
  - unfold sequential. generalize 0. clear.
    induction feeds as [| feed feeds IH]; intros i; csimpl; [done |].
    rewrite length_app, length_replicate, IH. lia.
Qed.

Lemma sequential_run_output_witness :
  Forall2 (λ feed seq, trace feed = Ok <$> seq) Sample.feeds_healthy
    [[Sample.pricing "c8g.48xlarge" 0.9; Sample.pricing "c8g.48xlarge" 1.3];
     [Sample.pricing "c8g.metal-48xl" 1.0]] ∧
  printed (main Cpu.body Sample.feeds_healthy (sequential Sample.feeds_healthy))
    = concat (List.filter (accepts Cpu.body) <$>
        [[Sample.pricing "c8g.48xlarge" 0.9; Sample.pricing "c8g.48xlarge" 1.3];
         [Sample.pricing "c8g.metal-48xl" 1.0]]).
Proof.
  assert (Forall2 (λ feed seq, trace feed = Ok <$> seq) Sample.feeds_healthy
    [[Sample.pricing "c8g.48xlarge" 0.9; Sample.pricing "c8g.48xlarge" 1.3];
     [Sample.pricing "c8g.metal-48xl" 1.0]]) as Htr.
  { unfold Sample.feeds_healthy.
    repeat (apply List.Forall2_cons; [by vm_compute |]). apply List.Forall2_nil. }
  split; [exact Htr |].
  destruct (sequential_run_output Cpu.body _ _ Htr) as (_ & Hp & _).
  - repeat constructor.
  - exact Hp.
Defined.
